(** * MortgageVis: the amortization model and the mortgage summary

    A shallow embedding of [mortgage.py].  The program computes with
    binary64 floats through numpy.  The main model is exact: every finite
    float is the rational it is written as and the non-finite values
    numpy produces on a division by zero (nan, +inf, -inf) are kept as
    such; rounding and overflow are not modelled.  What is proved of the
    values in that model is a property of the program in exact
    arithmetic, and is stated so.  Where rounding or the dtype of an
    array decides, the program is modelled a second time: on ints and
    floats with numpy's exceptions (section "Integer and float
    arguments") and on the binary64 floats of the machine (module
    [B64]). *)

From Stdlib Require Import QArith Qpower Qround Qfield ZArith List Bool String Lia.
From Stdlib Require Import Floats Uint63.
Import ListNotations.

(** A decimal float literal is the closest binary64 value, as in Python. *)
Set Warnings "-inexact-float".

Open Scope Q_scope.

(** ** Numbers as numpy has them, without rounding

    The operations below are the exact ones: [add] is associative and
    [power] is the rational power, where binary64 rounds each result. *)

Module Np.

Inductive num : Type :=
| Fin (q : Q)
| PInf
| NInf
| NaN.

Definition neg (x : num) : num :=
  match x with
  | Fin q => Fin (- q)
  | PInf => NInf
  | NInf => PInf
  | NaN => NaN
  end.

(** Sign of a finite value as the infinity of that sign; a zero counts
    as positive (the zero of [x - x] is +0.0). *)
Definition inf_of_sign (q : Q) : num :=
  if Qle_bool 0 q then PInf else NInf.

Definition add (x y : num) : num :=
  match x, y with
  | NaN, _ | _, NaN => NaN
  | Fin a, Fin b => Fin (a + b)
  | PInf, NInf | NInf, PInf => NaN
  | PInf, _ | _, PInf => PInf
  | NInf, _ | _, NInf => NInf
  end.

Definition sub (x y : num) : num := add x (neg y).

Definition mul (x y : num) : num :=
  match x, y with
  | NaN, _ | _, NaN => NaN
  | Fin a, Fin b => Fin (a * b)
  | Fin a, PInf | PInf, Fin a =>
      if Qeq_bool a 0 then NaN else inf_of_sign a
  | Fin a, NInf | NInf, Fin a =>
      if Qeq_bool a 0 then NaN else neg (inf_of_sign a)
  | PInf, PInf | NInf, NInf => PInf
  | PInf, NInf | NInf, PInf => NInf
  end.

(** True division of numpy scalars: a zero divisor gives nan for a zero
    dividend and an infinity otherwise, with a warning and no exception.
    Every divisor of the program is a difference [pow - 1], so a zero
    divisor is +0.0. *)
Definition div (x y : num) : num :=
  match x, y with
  | NaN, _ | _, NaN => NaN
  | Fin a, Fin b =>
      if Qeq_bool b 0
      then (if Qeq_bool a 0 then NaN else inf_of_sign a)
      else Fin (a / b)
  | Fin _, (PInf | NInf) => Fin 0
  | (PInf | NInf), (PInf | NInf) => NaN
  | PInf, Fin b => inf_of_sign b
  | NInf, Fin b => neg (inf_of_sign b)
  end.

(** The comparison [x == y] of floats: nan is equal to nothing. *)
Definition eqb (x y : num) : bool :=
  match x, y with
  | Fin a, Fin b => Qeq_bool a b
  | PInf, PInf | NInf, NInf => true
  | _, _ => false
  end.

(** The comparison [x < y] of floats: false as soon as one side is nan. *)
Definition ltb (x y : num) : bool :=
  match x, y with
  | NaN, _ | _, NaN => false
  | Fin a, Fin b => negb (Qle_bool b a)
  | NInf, NInf | PInf, _ => false
  | NInf, _ => true
  | Fin _, PInf => true
  | Fin _, NInf => false
  end.

Definition gtb (x y : num) : bool := ltb y x.

Definition leb (x y : num) : bool :=
  match x, y with
  | NaN, _ | _, NaN => false
  | _, _ => negb (ltb y x)
  end.

Definition geb (x y : num) : bool := leb y x.

(** Two results are the same value: equal rationals, or the same
    non-finite value (nan included, unlike [eqb]). *)
Definition same (x y : num) : Prop :=
  match x, y with
  | Fin a, Fin b => a == b
  | PInf, PInf | NInf, NInf | NaN, NaN => True
  | _, _ => False
  end.

Definition is_finite (x : num) : bool :=
  match x with Fin _ => true | _ => false end.

(** [np.power(b, e)] for a float base and an integer exponent.  A
    negative power of zero is +inf. *)
Definition power (b : Q) (e : Z) : num :=
  if ((e <? 0)%Z && Qeq_bool b 0)%bool then PInf else Fin (b ^ e).

(** [np.arange(N)]: the indices [0, 1, ..., N-1], none when [N <= 0]. *)
Definition arange (N : Z) : list Z := map Z.of_nat (seq 0 (Z.to_nat N)).

(** [np.sum] of a list, 0 for the empty list. *)
Definition sum (l : list num) : num := fold_left add l (Fin 0).

(** [np.round(x, 2)]: scale by 100, round to the nearest integer with
    ties to the even one, scale back.  The exact value is rounded, where
    numpy rounds the binary64 product [x * 100]. *)
Definition rint (q : Q) : Z :=
  let n := Qfloor q in
  let r := q - inject_Z n in
  match Qcompare r (1 # 2) with
  | Lt => n
  | Gt => (n + 1)%Z
  | Eq => if Z.even n then n else (n + 1)%Z
  end.

Definition round2 (x : num) : num :=
  match x with
  | Fin q => Fin (inject_Z (rint (q * 100)) / 100)
  | _ => x
  end.

End Np.

Declare Scope np_scope.
Delimit Scope np_scope with np.
Bind Scope np_scope with Np.num.
Infix "+" := Np.add : np_scope.
Infix "-" := Np.sub : np_scope.
Infix "*" := Np.mul : np_scope.
Infix "/" := Np.div : np_scope.
Coercion Np.Fin : Q >-> Np.num.

(** ** The amortization model: the module-level functions *)

(** Outstanding principal at step [k]. *)
Definition _p (k : Z) (P : Q) (N : Z) (alpha : Q) : Np.num :=
  let A := (Np.Fin P * Np.power (1 + alpha) k)%np in
  (A - Np.Fin P * Np.power (1 + alpha) N
         * (Np.power (1 + alpha) k - Np.Fin 1)
         / (Np.power (1 + alpha) N - Np.Fin 1))%np.

(** Interest payment at step [k]. *)
Definition _I (k : Z) (P : Q) (N : Z) (alpha : Q) : Np.num :=
  (Np.Fin alpha * _p k P N alpha)%np.

(** Fixed monthly payment. *)
Definition _f (P : Q) (N : Z) (alpha : Q) : Np.num :=
  (Np.Fin alpha * Np.power (1 + alpha) N * Np.Fin P
   / (Np.power (1 + alpha) N - Np.Fin 1))%np.

(** Amount paid toward principal at step [k]. *)
Definition _X (k : Z) (P : Q) (N : Z) (alpha : Q) : Np.num :=
  (_f P N alpha - Np.Fin alpha * _p k P N alpha)%np.

Definition _total (P : Q) (N : Z) (alpha : Q) : Np.num :=
  (Np.Fin (inject_Z N) * _f P N alpha)%np.

(** ** The same functions on an array of indices

    numpy evaluates the body of [_p], [_I] and [_X] on an array [k]
    operation by operation, broadcasting the scalars.  The arrays here
    are float64 arrays, as they are for a float [alpha] or a float [P]
    and so in every call the class [Mortgage] makes; the int64 array of
    an int [P] with an int [alpha] is treated in the section "Integer
    and float arguments". *)

Module Nd.

Definition ndarray := list Np.num.

(** [np.power(b, ks)] on an integer array. *)
Definition power (b : Q) (ks : list Z) : ndarray := map (Np.power b) ks.

(** scalar [*] array, scalar [-] array, array [-] scalar, array [/] scalar *)
Definition smul (s : Np.num) (v : ndarray) : ndarray := map (Np.mul s) v.
Definition ssub (s : Np.num) (v : ndarray) : ndarray := map (Np.sub s) v.
Definition subs (v : ndarray) (s : Np.num) : ndarray :=
  map (fun x => Np.sub x s) v.
Definition divs (v : ndarray) (s : Np.num) : ndarray :=
  map (fun x => Np.div x s) v.

(** array [-] array, element by element *)
Fixpoint sub (v w : ndarray) : ndarray :=
  match v, w with
  | x :: v', y :: w' => Np.sub x y :: sub v' w'
  | _, _ => []
  end.

End Nd.

Definition _p_vec (ks : list Z) (P : Q) (N : Z) (alpha : Q) : Nd.ndarray :=
  let A := Nd.smul (Np.Fin P) (Nd.power (1 + alpha) ks) in
  Nd.sub A
    (Nd.divs
       (Nd.smul (Np.Fin P * Np.power (1 + alpha) N)%np
                (Nd.subs (Nd.power (1 + alpha) ks) (Np.Fin 1)))
       (Np.power (1 + alpha) N - Np.Fin 1)%np).

Definition _I_vec (ks : list Z) (P : Q) (N : Z) (alpha : Q) : Nd.ndarray :=
  Nd.smul (Np.Fin alpha) (_p_vec ks P N alpha).

Definition _X_vec (ks : list Z) (P : Q) (N : Z) (alpha : Q) : Nd.ndarray :=
  Nd.ssub (_f P N alpha) (Nd.smul (Np.Fin alpha) (_p_vec ks P N alpha)).

(** ** The summary table *)

(** The frame of [(item, value)] rows, indexed by item. *)
Definition DataFrame := list (string * Np.num).

(** [df.loc[item, 'value']] *)
Fixpoint loc (item : string) (df : DataFrame) : option Np.num :=
  match df with
  | [] => None
  | (i, v) :: df' => if String.eqb i item then Some v else loc item df'
  end.

(** The styled table handed to the display; the formats and the css
    belong to the presentation and are left out. *)
Record Styler : Type := mkStyler { data : DataFrame }.

Definition _style (df : DataFrame) : Styler := mkStyler df.

(** ** class Mortgage *)

Record Mortgage : Type := mkMortgage {
  total_price : Q;
  num_years : Z;
  num_months : Z;
  interest_rate : Q;
  down_payment_fraction : Q;
  down_payment : Q;
  PMI_rate : Q;
  tax_rate : Q;
  principal : Q;
  summary_table : option Styler;
  (* set by compute_summary *)
  monthly_PMI_payment : Q;
  total_PMI_payment : Np.num;
  df_summary : DataFrame
}.

Definition set_monthly_PMI_payment (v : Q) (self : Mortgage) : Mortgage :=
  mkMortgage (total_price self) (num_years self) (num_months self)
    (interest_rate self) (down_payment_fraction self) (down_payment self)
    (PMI_rate self) (tax_rate self) (principal self) (summary_table self)
    v (total_PMI_payment self) (df_summary self).

Definition set_total_PMI_payment (v : Np.num) (self : Mortgage) : Mortgage :=
  mkMortgage (total_price self) (num_years self) (num_months self)
    (interest_rate self) (down_payment_fraction self) (down_payment self)
    (PMI_rate self) (tax_rate self) (principal self) (summary_table self)
    (monthly_PMI_payment self) v (df_summary self).

Definition set_tables (df : DataFrame) (t : Styler) (self : Mortgage)
  : Mortgage :=
  mkMortgage (total_price self) (num_years self) (num_months self)
    (interest_rate self) (down_payment_fraction self) (down_payment self)
    (PMI_rate self) (tax_rate self) (principal self) (Some t)
    (monthly_PMI_payment self) (total_PMI_payment self) df.

Definition Qltb (a b : Q) : bool := negb (Qle_bool b a).

(** The total mortgage insurance paid: the monthly payment once for each
    element of the balance array above 80% of the principal. *)
Definition _compute_total_PMI_payment (self : Mortgage) : Np.num :=
  let alpha := interest_rate self / 12 in
  let P := principal self in
  let N := num_months self in
  let ns := Np.arange N in
  let ps := _p_vec ns P N alpha in
  Np.sum
    (map (fun _ => Np.Fin (monthly_PMI_payment self))
       (filter (fun p => Np.gtb p (Np.Fin (0.8 * principal self))) ps)).

Definition compute_summary (self : Mortgage) : Mortgage :=
  let r := interest_rate self in
  let alpha := r / 12 in
  let N := num_months self in
  let P := principal self in
  let self :=
    if Qltb (down_payment_fraction self) 0.2
    then set_monthly_PMI_payment (PMI_rate self * principal self / 12) self
    else set_monthly_PMI_payment 0 self in
  let self := set_total_PMI_payment (_compute_total_PMI_payment self) self in
  let total_tax :=
    Np.Fin (tax_rate self * total_price self * inject_Z (num_years self)) in
  let monthly_tax := Np.Fin (tax_rate self * total_price self / 12) in
  let total_loan_repayment := _total P N alpha in
  let grand_total :=
    (total_loan_repayment + total_tax + Np.Fin (down_payment self)
     + total_PMI_payment self)%np in
  let total_interest := (total_loan_repayment - Np.Fin (principal self))%np in
  let df : DataFrame :=
    [ ("Down payment fraction", Np.Fin (down_payment_fraction self));
      ("Interest Rate", Np.Fin (interest_rate self));
      ("PMI rate", Np.Fin (PMI_rate self));
      ("Total price", Np.Fin (total_price self));
      ("Down payment", Np.Fin (down_payment self));
      ("Principal loan", Np.Fin (principal self));
      ("Interest to principal ratio",
        Np.round2 (total_interest / Np.Fin (principal self))%np);
      ("monthly PMI Insurance", Np.Fin (monthly_PMI_payment self));
      ("monthly principal + interest", _f P N alpha);
      ("monthly payment",
        (_f P N alpha + Np.Fin (monthly_PMI_payment self))%np);
      ("monthly payment + tax (approx)",
        (_f P N alpha + Np.Fin (monthly_PMI_payment self) + monthly_tax)%np);
      ("Total tax paid", total_tax);
      ("Total loan payment", total_loan_repayment);
      ("Total interest paid", total_interest);
      ("Total PMI paid", total_PMI_payment self);
      ("Total cost (no tax)",
        (total_loan_repayment + Np.Fin (down_payment self)
         + total_PMI_payment self)%np);
      ("Grand total", grand_total) ]%string in
  set_tables df (_style df) self.

(** The constructor.  The three attributes that [compute_summary] sets
    do not exist before its call; it writes each of them before any
    read, so the values they start with here are never seen. *)
Definition __init__ (total_price : Q) (num_years : Z) (interest_rate : Q)
    (down_payment_fraction : Q) (PMI_rate : Q) : Mortgage :=
  let num_months := (num_years * 12)%Z in
  let down_payment := down_payment_fraction * total_price in
  let tax_rate := 1.22e-2 in
  let principal := total_price - down_payment in
  compute_summary
    {| total_price := total_price;
       num_years := num_years;
       num_months := num_months;
       interest_rate := interest_rate;
       down_payment_fraction := down_payment_fraction;
       down_payment := down_payment;
       PMI_rate := PMI_rate;
       tax_rate := tax_rate;
       principal := principal;
       summary_table := None;
       monthly_PMI_payment := 0;
       total_PMI_payment := Np.Fin 0;
       df_summary := [] |}.

(** The default of the keyword argument [PMI_rate]. *)
Definition PMI_rate_default : Q := 0.01.

(** [summary]: the table is built on demand when there is none.  A
    [Styler] has neither [__bool__] nor [__len__], so [not table] is true
    for the missing table only.  The method returns the table and leaves
    the object in its new state. *)
Definition summary (self : Mortgage) : option Styler * Mortgage :=
  let self :=
    match summary_table self with
    | None => compute_summary self
    | Some _ => self
    end in
  (summary_table self, self).

(** ** Exceptions and the names of the module *)

Inductive exn : Type :=
| NameError (name : string)
| TypeError
| ValueError.

Inductive result (A : Type) : Type :=
| Ok (a : A)
| Raise (e : exn).
Arguments Ok {A} a.
Arguments Raise {A} e.

Definition bind {A B} (r : result A) (k : A -> result B) : result B :=
  match r with
  | Ok a => k a
  | Raise e => Raise e
  end.

Notation "x <- r ;; k" := (bind r (fun x => k))
  (at level 61, r at next level, right associativity).

(** What a global name of the module is bound to: one of the functions
    of [(k, P, N, alpha)], or something else (an imported module, a
    function of another signature, the class). *)
Inductive pyval : Type :=
| VSeries (f : list Z -> Q -> Z -> Q -> Nd.ndarray)
| VOther.

Definition namespace := list (string * pyval).

(** The global names [mortgage.py] binds, in the order of the file. *)
Definition module_globals : namespace :=
  [ ("pd", VOther); ("np", VOther); ("plt", VOther); ("sns", VOther);
    ("FormatStrFormatter", VOther); ("FuncFormatter", VOther);
    ("_p", VSeries _p_vec); ("_I", VSeries _I_vec); ("_f", VOther);
    ("_X", VSeries _X_vec); ("_total", VOther); ("_style", VOther);
    ("Mortgage", VOther); ("main", VOther) ]%string.

Fixpoint load_global (g : namespace) (name : string) : result pyval :=
  match g with
  | [] => Raise (NameError name)
  | (n, v) :: g' => if String.eqb n name then Ok v else load_global g' name
  end.

Definition call_series (v : pyval) (ks : list Z) (P : Q) (N : Z) (alpha : Q)
  : result Nd.ndarray :=
  match v with
  | VSeries f => Ok (f ks P N alpha)
  | VOther => Raise TypeError
  end.

(** The builtin [max] of an iterable: the first element that no later
    one exceeds under [>]; [ValueError] on an empty one. *)
Definition py_max (l : list Np.num) : result Np.num :=
  match l with
  | [] => Raise ValueError
  | x :: l' =>
      Ok (fold_left (fun cur y => if Np.gtb y cur then y else cur) l' x)
  end.

(** [get_num_insurance_payments], run with the global names [g].  The
    callee [p] is looked up before its arguments are used.  A return
    without a value is [None]. *)
Definition get_num_insurance_payments_in (g : namespace) (self : Mortgage)
  : result (option Z) :=
  let alpha := interest_rate self / 12 in
  let P := principal self in
  let N := num_months self in
  let ns := Np.arange N in
  callee <- load_global g "p" ;;
  ps <- call_series callee ns P N alpha ;;
  let frac_price := 0.8 in
  let price_q80 := frac_price * total_price self in
  mx <- py_max ps ;;
  if Np.geb mx (Np.Fin price_q80)
  then (let n_months := 0%Z in Ok (Some n_months))
  else Ok None.

Definition get_num_insurance_payments (self : Mortgage) : result (option Z) :=
  get_num_insurance_payments_in module_globals self.

(** The value of a row of the table that [summary] returns. *)
Definition summary_value (self : Mortgage) (item : string) : option Np.num :=
  match fst (summary self) with
  | Some t => loc item (data t)
  | None => None
  end.

(** The names of the module with [p] bound to the balance function, as
    the call in [get_num_insurance_payments] needs it. *)
Definition globals_with_p : namespace :=
  ("p"%string, VSeries _p_vec) :: module_globals.

(** ** Closed forms and specification-side definitions *)

(** The balance as a rational, when the divisor is not zero. *)
Definition p_closed (k : Z) (P : Q) (N : Z) (alpha : Q) : Q :=
  P * (1 + alpha) ^ k
  + - (P * (1 + alpha) ^ N * ((1 + alpha) ^ k + - (1))
       / ((1 + alpha) ^ N + - (1))).

Definition f_closed (P : Q) (N : Z) (alpha : Q) : Q :=
  alpha * (1 + alpha) ^ N * P / ((1 + alpha) ^ N + - (1)).

(** The months [k] of the term whose balance is above 80% of [principal]. *)
Definition months_above_threshold (self : Mortgage) : list Z :=
  filter
    (fun k =>
       Np.gtb (_p k (principal self) (num_months self) (interest_rate self / 12))
              (Np.Fin (0.8 * principal self)))
    (Np.arange (num_months self)).

(** The insurance total as the specification words it: the monthly
    payment summed over the months above the threshold. *)
Definition total_insurance_spec (self : Mortgage) : Np.num :=
  Np.sum (map (fun _ => Np.Fin (monthly_PMI_payment self))
              (months_above_threshold self)).

(** What [compute_summary] leaves in each attribute. *)
Definition monthly_PMI_of (self : Mortgage) : Q :=
  if Qltb (down_payment_fraction self) 0.2
  then PMI_rate self * principal self / 12
  else 0.


(** The sum of a list of rationals. *)
Definition Qsum (l : list Q) : Q := fold_right Qplus 0 l.

(** The interest and the principal portion as rationals, when the
    divisor is not zero. *)
Definition i_closed (k : Z) (P : Q) (N : Z) (alpha : Q) : Q :=
  alpha * p_closed k P N alpha.

Definition x_closed (k : Z) (P : Q) (N : Z) (alpha : Q) : Q :=
  f_closed P N alpha + - (alpha * p_closed k P N alpha).


(** The items of the summary, in the order of the table. *)
Definition summary_items : list string :=
  [ "Down payment fraction"; "Interest Rate"; "PMI rate";
    "Total price"; "Down payment"; "Principal loan";
    "Interest to principal ratio"; "monthly PMI Insurance";
    "monthly principal + interest"; "monthly payment";
    "monthly payment + tax (approx)";
    "Total tax paid"; "Total loan payment"; "Total interest paid";
    "Total PMI paid"; "Total cost (no tax)"; "Grand total" ]%string.

(** Two objects with the same nine parameters. *)
Definition same_parameters (a b : Mortgage) : Prop :=
  total_price a = total_price b
  /\ num_years a = num_years b
  /\ num_months a = num_months b
  /\ interest_rate a = interest_rate b
  /\ down_payment_fraction a = down_payment_fraction b
  /\ down_payment a = down_payment b
  /\ PMI_rate a = PMI_rate b
  /\ tax_rate a = tax_rate b
  /\ principal a = principal b.


(** [np.ones_like(v)] *)
Definition ones_like (v : Nd.ndarray) : Nd.ndarray :=
  map (fun _ => Np.Fin 1) v.

(** The arrays [plot] hands to [plt.plot], as [(x, y)] pairs in the
    order of the calls: the balance and the line at 80% of the price on
    the first figure, the interest and the principal portions on the
    second.  The drawing itself is left out. *)
Definition plot (self : Mortgage) : list (Nd.ndarray * Nd.ndarray) :=
  let alpha := interest_rate self / 12 in
  let P := principal self in
  let N := num_months self in
  let ns := Np.arange N in
  let ys := map (fun n => Np.Fin (inject_Z n / 12)) ns in
  let ps := _p_vec ns P N alpha in
  let xs := _X_vec ns P N alpha in
  let Is := _I_vec ns P N alpha in
  let frac_price := 0.8 in
  let price_q80 := frac_price * total_price self in
  [ (ys, ps);
    (ys, Nd.smul (Np.Fin price_q80) (ones_like ys));
    (ys, Is);
    (ys, xs) ].

(** ** Integer and float arguments

    Python passes [P] and [alpha] as ints or as floats, and numpy keeps
    the difference: [np.power] of an int base and an int exponent is an
    int64 (and refuses a negative exponent), so that with an int [P] and
    an int [alpha] the array [A = P * np.power(1 + alpha, k)] has dtype
    int64.  The body of [_p] then subtracts a float64 array from [A] in
    place, [A -= ...], which numpy refuses for an int64 array: the result
    cannot be cast back to int64.  On a scalar [k] the same statement
    rebinds [A] to the float difference.  The values are the exact ones
    of the sections above: the wrap-around of int64 is not modelled. *)

Inductive pynum : Type :=
| PyInt (z : Z)
| PyFloat (q : Q).

Definition py_value (x : pynum) : Q :=
  match x with
  | PyInt z => inject_Z z
  | PyFloat q => q
  end.

Definition py_is_int (x : pynum) : bool :=
  match x with
  | PyInt _ => true
  | PyFloat _ => false
  end.

(** [1 + x] *)
Definition py_succ (x : pynum) : pynum :=
  match x with
  | PyInt z => PyInt (1 + z)
  | PyFloat q => PyFloat (1 + q)
  end.

(** [np.power(base, e)] for an integer exponent: "Integers to negative
    integer powers are not allowed" is a ValueError. *)
Definition power_py (base : pynum) (e : Z) : result Np.num :=
  match base with
  | PyInt b =>
      if (e <? 0)%Z then Raise ValueError
      else Ok (Np.Fin (inject_Z (b ^ e)))
  | PyFloat b => Ok (Np.power b e)
  end.

(** [np.power(base, ks)] on an integer array. *)
Fixpoint power_py_array (base : pynum) (ks : list Z) : result Nd.ndarray :=
  match ks with
  | [] => Ok []
  | k :: ks' =>
      x <- power_py base k ;;
      xs <- power_py_array base ks' ;;
      Ok (x :: xs)
  end.

(** [_p] on a scalar [k]. *)
Definition _p_py (k : Z) (P : pynum) (N : Z) (alpha : pynum)
  : result Np.num :=
  pk <- power_py (py_succ alpha) k ;;
  let A := (Np.Fin (py_value P) * pk)%np in
  pN <- power_py (py_succ alpha) N ;;
  Ok (A - Np.Fin (py_value P) * pN * (pk - Np.Fin 1)
          / (pN - Np.Fin 1))%np.

(** [_p] on an array [k] of integers.  The in-place subtraction raises
    numpy's UFuncTypeError, a TypeError, when [A] is an int64 array. *)
Definition _p_array (ks : list Z) (P : pynum) (N : Z) (alpha : pynum)
  : result Nd.ndarray :=
  pk <- power_py_array (py_succ alpha) ks ;;
  let A := Nd.smul (Np.Fin (py_value P)) pk in
  pN <- power_py (py_succ alpha) N ;;
  let B :=
    Nd.divs
      (Nd.smul (Np.Fin (py_value P) * pN)%np (Nd.subs pk (Np.Fin 1)))
      (pN - Np.Fin 1)%np in
  if (py_is_int P && py_is_int alpha)%bool then Raise TypeError
  else Ok (Nd.sub A B).

(** The scalar form mapped over the indices, stopping at the first
    exception. *)
Fixpoint _p_mapped (ks : list Z) (P : pynum) (N : Z) (alpha : pynum)
  : result Nd.ndarray :=
  match ks with
  | [] => Ok []
  | k :: ks' =>
      x <- _p_py k P N alpha ;;
      xs <- _p_mapped ks' P N alpha ;;
      Ok (x :: xs)
  end.

(** ** The program in binary64

    The same expressions on the floats of the machine, to evaluate the
    program where rounding decides.  [np.power] is taken as repeated
    multiplication, which is its value whenever every product is exact:
    so for the bases [1.0] and [2.0] used below, and not in general. *)

Module B64.

Local Open Scope float_scope.

(** The float of a Python int. *)
Definition of_int (z : Z) : float :=
  match z with
  | Z0 => 0
  | Zpos _ => PrimFloat.of_uint63 (Uint63.of_Z z)
  | Zneg p => - PrimFloat.of_uint63 (Uint63.of_Z (Zpos p))
  end.

Fixpoint pow_nat (b : float) (n : nat) : float :=
  match n with
  | O => 1
  | S n' => b * pow_nat b n'
  end.

Definition power (b : float) (e : Z) : float :=
  match e with
  | Z0 => 1
  | Zpos p => pow_nat b (Pos.to_nat p)
  | Zneg p => 1 / pow_nat b (Pos.to_nat p)
  end.

Definition _p (k : Z) (P : float) (N : Z) (alpha : float) : float :=
  let A := P * power (1 + alpha) k in
  A - P * power (1 + alpha) N * (power (1 + alpha) k - 1)
      / (power (1 + alpha) N - 1).

Definition _f (P : float) (N : Z) (alpha : float) : float :=
  alpha * power (1 + alpha) N * P / (power (1 + alpha) N - 1).

Definition _total (P : float) (N : Z) (alpha : float) : float :=
  of_int N * _f P N alpha.

(** The constant [1.22e-2] of [__init__], as binary64 reads it. *)
Definition tax_rate : float := 0x1.8fc504816f007p-7.

(** The attributes [__init__] derives from its arguments. *)
Definition down_payment (price fraction : float) : float :=
  fraction * price.

Definition principal (price fraction : float) : float :=
  price - down_payment price fraction.

Definition monthly_rate (rate : float) : float := rate / 12.

(** [compute_summary] and [_compute_total_PMI_payment].  [np.sum] adds
    in blocks from eight terms on and [total_PMI_payment] adds from the
    left: the same value when every term is 0, as for a down payment
    fraction of at least 0.2. *)
Definition monthly_PMI_payment (price fraction pmi : float) : float :=
  if fraction <? 0.2 then pmi * principal price fraction / 12 else 0.

Definition total_PMI_payment (price : float) (years : Z)
    (rate fraction pmi : float) : float :=
  let alpha := monthly_rate rate in
  let P := principal price fraction in
  let N := (years * 12)%Z in
  let ps := map (fun k => _p k P N alpha) (Np.arange N) in
  fold_left PrimFloat.add
    (map (fun _ => monthly_PMI_payment price fraction pmi)
         (filter (fun p => 0.8 * P <? p) ps))
    0.

Definition total_loan_repayment (price : float) (years : Z)
    (rate fraction : float) : float :=
  _total (principal price fraction) (years * 12) (monthly_rate rate).

Definition total_tax (price : float) (years : Z) : float :=
  tax_rate * price * of_int years.

(** The row "Total cost (no tax)". *)
Definition total_cost_no_tax (price : float) (years : Z)
    (rate fraction pmi : float) : float :=
  total_loan_repayment price years rate fraction
  + down_payment price fraction
  + total_PMI_payment price years rate fraction pmi.

(** The row "Grand total". *)
Definition grand_total (price : float) (years : Z)
    (rate fraction pmi : float) : float :=
  total_loan_repayment price years rate fraction
  + total_tax price years
  + down_payment price fraction
  + total_PMI_payment price years rate fraction pmi.

End B64.

(** * Properties *)

(** The 30-year loan of 240000 at 4%: the payment is about 1145.80. *)
Example f_scenario :
  Np.ltb (Np.Fin 1145.3) (_f 240000 360 (0.04 / 12)) = true
  /\ Np.ltb (_f 240000 360 (0.04 / 12)) (Np.Fin 1146.3) = true.
Proof. vm_compute. split; reflexivity. Qed.

(** ** Arithmetic of the finite values *)

Lemma Qeq_bool_false (a b : Q) : ~ a == b -> Qeq_bool a b = false.
Proof.
  intros H. destruct (Qeq_bool a b) eqn:E; [|reflexivity].
  apply Qeq_bool_iff in E. contradiction.
Qed.

Lemma Qeq_bool_true (a b : Q) : a == b -> Qeq_bool a b = true.
Proof. intros H. now apply Qeq_bool_iff. Qed.

Lemma Qltb_true (a b : Q) : a < b -> Qltb a b = true.
Proof.
  intros H. unfold Qltb. destruct (Qle_bool b a) eqn:E; [|reflexivity].
  apply Qle_bool_iff in E. exfalso. exact (Qlt_not_le _ _ H E).
Qed.

Lemma Qltb_false (a b : Q) : b <= a -> Qltb a b = false.
Proof.
  intros H. unfold Qltb. apply Qle_bool_iff in H. now rewrite H.
Qed.

Lemma power_nonneg (b : Q) (e : Z) :
  (0 <= e)%Z -> Np.power b e = Np.Fin (b ^ e).
Proof.
  intros H. unfold Np.power.
  replace (e <? 0)%Z with false; [reflexivity|].
  symmetry. apply Z.ltb_ge. exact H.
Qed.

Lemma div_fin (a b : Q) :
  ~ b == 0 -> Np.div (Np.Fin a) (Np.Fin b) = Np.Fin (a / b).
Proof. intros H. simpl. now rewrite (Qeq_bool_false _ _ H). Qed.

Lemma denominator_nonzero (x : Q) : ~ x == 1 -> ~ x + - (1) == 0.
Proof.
  intros H E. apply H.
  setoid_replace x with ((x + - (1)) + 1) by ring.
  rewrite E. ring.
Qed.

Section Finite.

Variables (P alpha : Q) (N : Z).
Hypothesis HN : (0 <= N)%Z.
Hypothesis Hd : ~ (1 + alpha) ^ N == 1.

Lemma p_finite (k : Z) :
  (0 <= k)%Z -> _p k P N alpha = Np.Fin (p_closed k P N alpha).
Proof.
  intros Hk. unfold _p, p_closed.
  rewrite (power_nonneg _ k Hk), (power_nonneg _ N HN).
  cbn [Np.mul Np.sub Np.add Np.neg].
  rewrite div_fin by (apply denominator_nonzero; exact Hd).
  reflexivity.
Qed.

Lemma f_finite : _f P N alpha = Np.Fin (f_closed P N alpha).
Proof.
  unfold _f, f_closed.
  rewrite (power_nonneg _ N HN).
  cbn [Np.mul Np.sub Np.add Np.neg].
  rewrite div_fin by (apply denominator_nonzero; exact Hd).
  reflexivity.
Qed.

End Finite.

(** A positive rate over a positive term makes the divisor positive. *)
Lemma growth_gt_1 (alpha : Q) (N : Z) :
  0 < alpha -> (0 < N)%Z -> 1 < (1 + alpha) ^ N.
Proof.
  intros Ha HN. apply Qpower_1_lt; [|exact HN].
  setoid_replace 1 with (1 + 0) at 1 by ring.
  apply Qplus_lt_r. exact Ha.
Qed.

Lemma growth_neq_1 (alpha : Q) (N : Z) :
  0 < alpha -> (0 < N)%Z -> ~ (1 + alpha) ^ N == 1.
Proof.
  intros Ha HN E. pose proof (growth_gt_1 alpha N Ha HN) as H.
  rewrite E in H. exact (Qlt_irrefl _ H).
Qed.

(** ** The amortization identities *)

(** C1, as amended: for every loan with [N > 0] whose divisor
    [(1+alpha)^N - 1] is not zero and every month [k] in [[0, N)], the
    interest portion plus the principal portion is [==] to the fixed
    monthly payment. *)
Theorem interest_plus_principal_is_payment (k : Z) (P : Q) (N : Z) (alpha : Q) :
  (0 < N)%Z -> (0 <= k < N)%Z -> ~ (1 + alpha) ^ N == 1 ->
  Np.eqb (_I k P N alpha + _X k P N alpha)%np (_f P N alpha) = true.
Proof.
  intros HN [Hk _] Hd.
  assert (HN' : (0 <= N)%Z) by lia.
  unfold _I, _X.
  rewrite (p_finite P alpha N HN' Hd k Hk), (f_finite P alpha N HN' Hd).
  cbn [Np.mul Np.sub Np.add Np.neg Np.eqb].
  apply Qeq_bool_true. ring.
Qed.

Lemma interest_plus_principal_is_payment_witness :
  Np.eqb (_I 3 1000 12 (1 # 100) + _X 3 1000 12 (1 # 100))%np
         (_f 1000 12 (1 # 100)) = true.
Proof.
  apply interest_plus_principal_is_payment.
  - lia.
  - lia.
  - vm_compute. discriminate.
Defined.

(** Every positive rate is covered by the amended C1. *)
Corollary interest_plus_principal_positive_rate
    (k : Z) (P : Q) (N : Z) (alpha : Q) :
  (0 < N)%Z -> (0 <= k)%Z -> 0 < alpha ->
  Np.eqb (_I k P N alpha + _X k P N alpha)%np (_f P N alpha) = true.
Proof.
  intros HN Hk Ha.
  assert (HN' : (0 <= N)%Z) by lia.
  pose proof (growth_neq_1 alpha N Ha HN) as Hd.
  unfold _I, _X.
  rewrite (p_finite P alpha N HN' Hd k Hk), (f_finite P alpha N HN' Hd).
  cbn [Np.mul Np.sub Np.add Np.neg Np.eqb].
  apply Qeq_bool_true. ring.
Qed.

(** At a zero rate every value is nan: the payment, the balance and the
    two portions. *)
Lemma f_zero_rate (P : Q) (N : Z) : _f P N 0 = Np.NaN.
Proof.
  unfold _f, Np.power.
  replace (Qeq_bool (1 + 0) 0) with false by reflexivity.
  rewrite andb_false_r.
  cbn [Np.mul Np.sub Np.add Np.neg Np.div].
  assert (H1 : (1 + 0) ^ N == 1).
  { setoid_replace (1 + 0) with 1 by ring. apply Qpower_1. }
  rewrite (Qeq_bool_true ((1 + 0) ^ N + - (1)) 0) by (rewrite H1; ring).
  rewrite (Qeq_bool_true (0 * (1 + 0) ^ N * P) 0) by ring.
  reflexivity.
Qed.

(** C1, as stated, fails at a zero rate: both sides are nan and nan is
    not [==] to nan. *)
Lemma interest_plus_principal_zero_rate :
  (0 < 360)%Z /\ (0 <= 0 < 360)%Z
  /\ (_I 0 240000 360 0 + _X 0 240000 360 0)%np = Np.NaN
  /\ _f 240000 360 0 = Np.NaN
  /\ Np.eqb (_I 0 240000 360 0 + _X 0 240000 360 0)%np
            (_f 240000 360 0) = false.
Proof.
  assert (H : (_I 0 240000 360 0 + _X 0 240000 360 0)%np = Np.NaN).
  { unfold _X. rewrite f_zero_rate. reflexivity. }
  split; [lia|]. split; [lia|]. split; [exact H|].
  split; [apply f_zero_rate|]. rewrite H. reflexivity.
Qed.



(** C3, as amended: at a zero rate the payment is the result of the
    formula, whose division of zero by zero is nan for every principal
    and every term; it is not [P/N]. *)
Theorem payment_zero_rate_is_nan (P : Q) (N : Z) :
  _f P N 0 = Np.NaN
  /\ Np.eqb (_f P N 0) (Np.Fin (P / inject_Z N)) = false
  /\ Np.is_finite (_f P N 0) = false.
Proof.
  rewrite f_zero_rate. repeat split.
Qed.

(** C3, as stated, fails: the payment of 240000 over 360 months at a
    zero rate is not [240000/360]. *)
Lemma payment_zero_rate_not_straight_line :
  0 <= 240000 /\ (0 < 360)%Z
  /\ Np.eqb (_f 240000 360 0) (Np.Fin (240000 / inject_Z 360)) = false.
Proof.
  split; [discriminate|]. split; [lia|].
  rewrite f_zero_rate. reflexivity.
Qed.

(** ** Monotonicity of the balance *)

(** One payment lowers the balance by [P * alpha * (1+alpha)^k] over the
    divisor. *)
Lemma p_closed_step (k : Z) (P : Q) (N : Z) (alpha : Q) :
  (0 <= k)%Z -> 0 < alpha -> ~ (1 + alpha) ^ N == 1 ->
  p_closed k P N alpha - p_closed (k + 1) P N alpha
  == P * alpha * (1 + alpha) ^ k / ((1 + alpha) ^ N + - (1)).
Proof.
  intros Hk Ha Hd. unfold p_closed.
  assert (Hb : ~ 1 + alpha == 0).
  { intros E. assert (H : 0 < 1 + alpha).
    { apply Qlt_trans with alpha; [exact Ha|].
      setoid_replace alpha with (0 + alpha) at 1 by ring.
      apply Qplus_lt_l. reflexivity. }
    rewrite E in H. exact (Qlt_irrefl _ H). }
  rewrite (Qpower_plus _ k 1 Hb).
  change ((1 + alpha) ^ 1) with (1 + alpha).
  field. apply denominator_nonzero. exact Hd.
Qed.

(** C6, as amended: in exact arithmetic, for [P > 0], [N > 0] and
    [alpha > 0] the balance strictly decreases from each month of
    [[0, N)] to the next. *)
Theorem balance_strictly_decreasing (k : Z) (P : Q) (N : Z) (alpha : Q) :
  0 < P -> (0 < N)%Z -> 0 < alpha -> (0 <= k < N)%Z ->
  Np.ltb (_p (k + 1) P N alpha) (_p k P N alpha) = true.
Proof.
  intros HP HN Ha [Hk _].
  assert (HN' : (0 <= N)%Z) by lia.
  pose proof (growth_neq_1 alpha N Ha HN) as Hd.
  rewrite (p_finite P alpha N HN' Hd k Hk).
  rewrite (p_finite P alpha N HN' Hd (k + 1)) by lia.
  cbn [Np.ltb]. fold (Qltb (p_closed (k + 1) P N alpha) (p_closed k P N alpha)).
  apply Qltb_true.
  apply Qlt_minus_iff. fold (Qminus (p_closed k P N alpha)
                                    (p_closed (k + 1) P N alpha)).
  rewrite (p_closed_step k P N alpha Hk Ha Hd).
  apply Qlt_shift_div_l.
  - pose proof (growth_gt_1 alpha N Ha HN) as Hg.
    apply Qlt_minus_iff in Hg. exact Hg.
  - rewrite Qmult_0_l.
    apply Qmult_lt_0_compat.
    + apply Qmult_lt_0_compat; assumption.
    + apply Qpower_0_lt.
      apply Qlt_trans with alpha; [exact Ha|].
      setoid_replace alpha with (0 + alpha) at 1 by ring.
      apply Qplus_lt_l. reflexivity.
Qed.

Lemma balance_strictly_decreasing_witness :
  Np.ltb (_p (3 + 1) 1000 12 (1 # 100)) (_p 3 1000 12 (1 # 100)) = true.
Proof.
  apply balance_strictly_decreasing.
  - reflexivity.
  - lia.
  - reflexivity.
  - lia.
Defined.

(** C6, as stated, fails for the loan of nothing, which [P >= 0] lets
    in: its balance is 0 every month. *)
Lemma balance_constant_for_zero_principal :
  0 <= 0 /\ (0 < 12)%Z /\ 0 < 1 # 100 /\ (0 <= 0 < 12)%Z
  /\ Np.ltb (_p (0 + 1) 0 12 (1 # 100)) (_p 0 0 12 (1 # 100)) = false.
Proof.
  split; [discriminate|]. split; [lia|]. split; [reflexivity|].
  split; [lia|]. vm_compute. reflexivity.
Qed.

(** In binary64 the strict order can be lost to rounding: for
    [P = 1000.0], [N = 60] and [alpha = 1.0] the balances before and
    after the first payment are both [1000.0]. *)
Lemma balance_not_decreasing_in_binary64 :
  PrimFloat.eqb (B64._p 0 1000 60 1) 1000 = true
  /\ PrimFloat.eqb (B64._p 1 1000 60 1) 1000 = true
  /\ PrimFloat.ltb (B64._p 1 1000 60 1) (B64._p 0 1000 60 1) = false.
Proof. vm_compute. repeat split. Qed.

(** ** The functions on arrays against the functions on one index *)

Lemma p_vec_is_map (ks : list Z) (P : Q) (N : Z) (alpha : Q) :
  _p_vec ks P N alpha = map (fun k => _p k P N alpha) ks.
Proof.
  unfold _p_vec, Nd.smul, Nd.subs, Nd.divs, Nd.power.
  induction ks as [|k ks IH].
  - reflexivity.
  - cbn [map Nd.sub]. rewrite IH. reflexivity.
Qed.

Lemma I_vec_is_map (ks : list Z) (P : Q) (N : Z) (alpha : Q) :
  _I_vec ks P N alpha = map (fun k => _I k P N alpha) ks.
Proof.
  unfold _I_vec, Nd.smul. rewrite p_vec_is_map, map_map. reflexivity.
Qed.

Lemma X_vec_is_map (ks : list Z) (P : Q) (N : Z) (alpha : Q) :
  _X_vec ks P N alpha = map (fun k => _X k P N alpha) ks.
Proof.
  unfold _X_vec, Nd.ssub, Nd.smul.
  rewrite p_vec_is_map, !map_map. reflexivity.
Qed.

(** On every float64 array of month indices, the balance, the interest
    portion and the principal portion computed on the array are, in
    exact arithmetic, the scalar function mapped over its elements. *)
Theorem vectorized_is_mapped (ks : list Z) (P : Q) (N : Z) (alpha : Q) :
  _p_vec ks P N alpha = map (fun k => _p k P N alpha) ks
  /\ _I_vec ks P N alpha = map (fun k => _I k P N alpha) ks
  /\ _X_vec ks P N alpha = map (fun k => _X k P N alpha) ks.
Proof.
  split; [|split].
  - apply p_vec_is_map.
  - apply I_vec_is_map.
  - apply X_vec_is_map.
Qed.

(** *** Integer arguments *)

Lemma power_py_array_float (b : Q) (ks : list Z) :
  power_py_array (PyFloat b) ks = Ok (Nd.power b ks).
Proof.
  induction ks as [|k ks IH].
  - reflexivity.
  - cbn [power_py_array power_py bind]. rewrite IH. reflexivity.
Qed.

Lemma p_py_float (k : Z) (P : pynum) (N : Z) (alpha : Q) :
  _p_py k P N (PyFloat alpha) = Ok (_p k (py_value P) N alpha).
Proof. reflexivity. Qed.

Lemma p_mapped_float (ks : list Z) (P : pynum) (N : Z) (alpha : Q) :
  _p_mapped ks P N (PyFloat alpha)
  = Ok (map (fun k => _p k (py_value P) N alpha) ks).
Proof.
  induction ks as [|k ks IH].
  - reflexivity.
  - cbn [_p_mapped]. rewrite p_py_float, IH. reflexivity.
Qed.

(** With a float rate, as in every call the class [Mortgage] makes, the
    array is a float64 array whatever [P] is: nothing is raised and, in
    exact arithmetic, the array form is the scalar form mapped over the
    indices. *)
Lemma array_form_on_float_rate (ks : list Z) (P : pynum) (N : Z) (alpha : Q) :
  _p_array ks P N (PyFloat alpha) = Ok (_p_vec ks (py_value P) N alpha)
  /\ _p_array ks P N (PyFloat alpha) = _p_mapped ks P N (PyFloat alpha).
Proof.
  assert (E : _p_array ks P N (PyFloat alpha)
              = Ok (_p_vec ks (py_value P) N alpha)).
  { unfold _p_array. cbn [py_succ]. rewrite power_py_array_float.
    cbn [bind power_py py_is_int]. rewrite andb_false_r. reflexivity. }
  split; [exact E|].
  rewrite E, p_mapped_float, p_vec_is_map. reflexivity.
Qed.







(** The values of the scalar form at those indices: 1000, 4094000/4095
    and 4092000/4095. *)
Example scalar_form_on_integers :
  match _p_mapped [0; 1; 2]%Z (PyInt 1000) 12 (PyInt 1) with
  | Ok [v0; v1; v2] =>
      (Np.eqb v0 (Np.Fin 1000) && Np.eqb v1 (Np.Fin (4094000 # 4095))
       && Np.eqb v2 (Np.Fin (4092000 # 4095)))%bool
  | _ => false
  end = true.
Proof. vm_compute. reflexivity. Qed.

(** ** The insurance total *)

Lemma filter_map_swap {A B} (f : B -> bool) (g : A -> B) (l : list A) :
  filter f (map g l) = map g (filter (fun a => f (g a)) l).
Proof.
  induction l as [|a l IH]; [reflexivity|].
  cbn [map filter]. destruct (f (g a)); cbn [map]; now rewrite IH.
Qed.

Lemma compute_total_PMI_payment_spec (self : Mortgage) :
  _compute_total_PMI_payment self = total_insurance_spec self.
Proof.
  unfold _compute_total_PMI_payment, total_insurance_spec,
    months_above_threshold.
  rewrite p_vec_is_map, filter_map_swap, map_map. reflexivity.
Qed.

Lemma compute_summary_inputs (self : Mortgage) :
  let self' := compute_summary self in
  total_price self' = total_price self
  /\ num_years self' = num_years self
  /\ num_months self' = num_months self
  /\ interest_rate self' = interest_rate self
  /\ down_payment_fraction self' = down_payment_fraction self
  /\ down_payment self' = down_payment self
  /\ PMI_rate self' = PMI_rate self
  /\ tax_rate self' = tax_rate self
  /\ principal self' = principal self.
Proof.
  unfold compute_summary.
  destruct (Qltb (down_payment_fraction self) 0.2); repeat split.
Qed.

Lemma compute_summary_monthly (self : Mortgage) :
  monthly_PMI_payment (compute_summary self) = monthly_PMI_of self.
Proof.
  unfold compute_summary, monthly_PMI_of.
  destruct (Qltb (down_payment_fraction self) 0.2); reflexivity.
Qed.

Lemma compute_summary_total (self : Mortgage) :
  total_PMI_payment (compute_summary self)
  = _compute_total_PMI_payment
      (set_monthly_PMI_payment (monthly_PMI_of self) self).
Proof.
  unfold compute_summary, monthly_PMI_of.
  destruct (Qltb (down_payment_fraction self) 0.2); reflexivity.
Qed.

Lemma init_inputs (price : Q) (years : Z) (rate fraction pmi : Q) :
  let m := __init__ price years rate fraction pmi in
  total_price m = price
  /\ num_years m = years
  /\ num_months m = (years * 12)%Z
  /\ interest_rate m = rate
  /\ down_payment_fraction m = fraction
  /\ down_payment m = fraction * price
  /\ PMI_rate m = pmi
  /\ tax_rate m = 1.22e-2
  /\ principal m = price - fraction * price.
Proof.
  unfold __init__. apply compute_summary_inputs.
Qed.

Lemma init_total_PMI_payment
    (price : Q) (years : Z) (rate fraction pmi : Q) :
  let m := __init__ price years rate fraction pmi in
  total_PMI_payment m = total_insurance_spec m.
Proof.
  unfold __init__. rewrite compute_summary_total.
  rewrite compute_total_PMI_payment_spec.
  unfold total_insurance_spec, months_above_threshold.
  unfold compute_summary, monthly_PMI_of.
  cbn [down_payment_fraction].
  destruct (Qltb fraction 0.2); reflexivity.
Qed.

(** C4: in every mortgage the insurance total is the monthly insurance
    payment summed over exactly the months [k] of [[0, num_months)] whose
    balance is above 0.8 times the principal, the principal being the
    price less the down payment; every month of the term is examined. *)
Theorem total_PMI_is_sum_over_months_above_threshold
    (price : Q) (years : Z) (rate fraction pmi : Q) :
  let m := __init__ price years rate fraction pmi in
  principal m = price - down_payment m
  /\ _compute_total_PMI_payment m = total_insurance_spec m
  /\ total_PMI_payment m = total_insurance_spec m
  /\ forall k,
       In k (months_above_threshold m) <->
       (0 <= k < num_months m)%Z
       /\ Np.gtb (_p k (principal m) (num_months m) (interest_rate m / 12))
                 (Np.Fin (0.8 * (price - down_payment m))) = true.
Proof.
  intros m.
  assert (Hp : principal m = price - down_payment m).
  { destruct (init_inputs price years rate fraction pmi)
      as (_ & _ & _ & _ & _ & Hd & _ & _ & Hp).
    fold m in Hd, Hp. rewrite Hd. exact Hp. }
  split; [exact Hp|].
  split; [apply compute_total_PMI_payment_spec|].
  split.
  - apply init_total_PMI_payment.
  - intros k. unfold months_above_threshold.
    rewrite filter_In, <- Hp. unfold Np.arange.
    rewrite in_map_iff.
    split; intros [H1 H2]; (split; [|exact H2]).
    + destruct H1 as [n [<- Hn]]. apply in_seq in Hn. lia.
    + exists (Z.to_nat k). split; [lia|]. apply in_seq. lia.
Qed.

Lemma total_PMI_is_sum_over_months_above_threshold_witness :
  let m := __init__ 1000 1 (12 # 100) (1 # 10) PMI_rate_default in
  total_PMI_payment m = total_insurance_spec m
  /\ (In 0%Z (months_above_threshold m) <->
      (0 <= 0 < num_months m)%Z
      /\ Np.gtb (_p 0 (principal m) (num_months m) (interest_rate m / 12))
                (Np.Fin (0.8 * (1000 - down_payment m))) = true).
Proof.
  intros m.
  destruct (total_PMI_is_sum_over_months_above_threshold
              1000 1 (12 # 100) (1 # 10) PMI_rate_default)
    as (_ & _ & H3 & H4).
  split; [exact H3|exact (H4 0%Z)].
Defined.

(** The whole term is examined: with the rate -36 the balance of a
    12-month loan of 1000 is below 800 in month 10 and above it again in
    month 11, and month 11 is counted. *)
Example scan_continues_after_a_dip :
  months_above_threshold (__init__ 1000 1 (-36) 0 PMI_rate_default)
  = [0; 1; 2; 3; 4; 5; 6; 7; 8; 9; 11]%Z.
Proof. vm_compute. reflexivity. Qed.

Lemma sum_of_zeros {A} (l : list A) :
  Np.sum (map (fun _ => Np.Fin 0) l) = Np.Fin 0.
Proof.
  unfold Np.sum. induction l as [|a l IH]; [reflexivity|].
  cbn [map fold_left Np.add]. exact IH.
Qed.

Lemma sum_of_constant {A} (c : Q) (l : list A) :
  exists q, Np.sum (map (fun _ => Np.Fin c) l) = Np.Fin q
            /\ q == inject_Z (Z.of_nat (List.length l)) * c.
Proof.
  unfold Np.sum.
  assert (H : forall acc, exists q,
             fold_left Np.add (map (fun _ => Np.Fin c) l) (Np.Fin acc) = Np.Fin q
             /\ q == acc + inject_Z (Z.of_nat (List.length l)) * c).
  { induction l as [|a l IH]; intros acc.
    - exists acc. split; [reflexivity|]. cbn [List.length]. 
      change (inject_Z (Z.of_nat 0)) with 0. ring.
    - cbn [map fold_left Np.add]. destruct (IH (acc + c)) as [q [E Hq]].
      exists q. split; [exact E|]. rewrite Hq.
      cbn [List.length]. rewrite Nat2Z.inj_succ. unfold Z.succ.
      rewrite inject_Z_plus. change (inject_Z 1) with 1. ring. }
  destruct (H 0) as [q [E Hq]]. exists q. split; [exact E|].
  rewrite Hq. ring.
Qed.

(** C5: in every mortgage, a down-payment fraction below 0.20 makes the
    monthly insurance payment [PMI_rate * principal / 12]; a fraction of
    0.20 or more makes the monthly payment and the insurance total 0. *)
Theorem insurance_by_down_payment_fraction
    (price : Q) (years : Z) (rate fraction pmi : Q) :
  let m := __init__ price years rate fraction pmi in
  (fraction < 0.2 ->
     monthly_PMI_payment m == PMI_rate m * principal m / 12)
  /\ (0.2 <= fraction ->
     monthly_PMI_payment m == 0
     /\ Np.eqb (total_PMI_payment m) (Np.Fin 0) = true).
Proof.
  intros m.
  destruct (init_inputs price years rate fraction pmi)
    as (_ & _ & _ & _ & _ & _ & Hr & _ & Hp).
  fold m in Hr, Hp.
  assert (Hm : monthly_PMI_payment m
               = if Qltb fraction 0.2 then pmi * (price - fraction * price) / 12
                 else 0).
  { subst m. unfold __init__. rewrite compute_summary_monthly. reflexivity. }
  split; intros H.
  - rewrite Hm, Hr, Hp, (Qltb_true _ _ H). reflexivity.
  - assert (Hm0 : monthly_PMI_payment m = 0).
    { rewrite Hm, (Qltb_false _ _ H). reflexivity. }
    split; [rewrite Hm0; reflexivity|].
    pose proof (init_total_PMI_payment price years rate fraction pmi) as E.
    cbv zeta in E. fold m in E. rewrite E. unfold total_insurance_spec.
    rewrite Hm0, sum_of_zeros. reflexivity.
Qed.

Lemma insurance_by_down_payment_fraction_witness :
  (let m := __init__ 1000 1 (12 # 100) (1 # 10) PMI_rate_default in
   monthly_PMI_payment m == PMI_rate m * principal m / 12)
  /\ (let m := __init__ 1000 1 (12 # 100) (1 # 4) PMI_rate_default in
      monthly_PMI_payment m == 0
      /\ Np.eqb (total_PMI_payment m) (Np.Fin 0) = true).
Proof.
  split.
  - apply (proj1 (insurance_by_down_payment_fraction
                    1000 1 (12 # 100) (1 # 10) PMI_rate_default)).
    reflexivity.
  - apply (proj2 (insurance_by_down_payment_fraction
                    1000 1 (12 # 100) (1 # 4) PMI_rate_default)).
    discriminate.
Defined.

(** ** The summary table *)

Lemma compute_summary_table (self : Mortgage) :
  summary_table (compute_summary self)
  = Some (_style (df_summary (compute_summary self))).
Proof.
  unfold compute_summary.
  destruct (Qltb (down_payment_fraction self) 0.2); reflexivity.
Qed.

Lemma compute_summary_rows (self : Mortgage) :
  let after := compute_summary self in
  let payment :=
    _f (principal after) (num_months after) (interest_rate after / 12) in
  let repayment :=
    _total (principal after) (num_months after) (interest_rate after / 12) in
  let total_tax :=
    Np.Fin (tax_rate after * total_price after * inject_Z (num_years after)) in
  let monthly_tax := Np.Fin (tax_rate after * total_price after / 12) in
  let df := df_summary after in
  loc "Total tax paid" df = Some total_tax
  /\ loc "monthly payment + tax (approx)" df
     = Some (payment + Np.Fin (monthly_PMI_payment after) + monthly_tax)%np
  /\ loc "Total loan payment" df = Some repayment
  /\ loc "Total interest paid" df
     = Some (repayment - Np.Fin (principal after))%np
  /\ loc "Total PMI paid" df = Some (total_PMI_payment after)
  /\ loc "Total cost (no tax)" df
     = Some (repayment + Np.Fin (down_payment after)
             + total_PMI_payment after)%np
  /\ loc "Grand total" df
     = Some (repayment + total_tax + Np.Fin (down_payment after)
             + total_PMI_payment after)%np.
Proof.
  unfold compute_summary.
  destruct (Qltb (down_payment_fraction self) 0.2); repeat split.
Qed.

Lemma grand_total_regrouped (L I : Np.num) (T D : Q) :
  Np.is_finite I = true ->
  Np.same (L + Np.Fin T + Np.Fin D + I)%np (L + Np.Fin D + I + Np.Fin T)%np.
Proof.
  intros H. destruct I as [i| | |]; try discriminate H.
  destruct L as [l| | |]; cbn; try exact I. ring.
Qed.

Lemma init_total_PMI_finite (price : Q) (years : Z) (rate fraction pmi : Q) :
  Np.is_finite (total_PMI_payment (__init__ price years rate fraction pmi))
  = true.
Proof.
  pose proof (init_total_PMI_payment price years rate fraction pmi) as E.
  cbv zeta in E. rewrite E. unfold total_insurance_spec.
  destruct (sum_of_constant
              (monthly_PMI_payment (__init__ price years rate fraction pmi))
              (months_above_threshold (__init__ price years rate fraction pmi)))
    as [q [Hq _]].
  rewrite Hq. reflexivity.
Qed.

Lemma init_summary (price : Q) (years : Z) (rate fraction pmi : Q) :
  let m := __init__ price years rate fraction pmi in
  fst (summary m) = Some (_style (df_summary m)) /\ snd (summary m) = m.
Proof.
  intros m. assert (H : summary_table m = Some (_style (df_summary m))).
  { subst m. unfold __init__. apply compute_summary_table. }
  unfold summary. rewrite H. cbn [fst snd]. split; [exact H|reflexivity].
Qed.

(** C7, as amended: in every mortgage the rows of the summary satisfy
    together: total tax = tax rate * price * years; the monthly tax added
    to the monthly payment = tax rate * price / 12; total interest = total
    repayment - principal; total cost without tax = total repayment +
    down payment + insurance total; the grand total = total repayment +
    total tax + down payment + insurance total, added in this order; and
    in exact arithmetic the grand total is the same value as that cost
    plus the total tax. *)
Theorem summary_identities (price : Q) (years : Z) (rate fraction pmi : Q) :
  let m := __init__ price years rate fraction pmi in
  let payment := _f (principal m) (num_months m) (interest_rate m / 12) in
  let repayment := (Np.Fin (inject_Z (num_months m)) * payment)%np in
  let total_tax := Np.Fin (tax_rate m * total_price m * inject_Z (num_years m)) in
  let monthly_tax := Np.Fin (tax_rate m * total_price m / 12) in
  let cost_no_tax :=
    (repayment + Np.Fin (down_payment m) + total_PMI_payment m)%np in
  let grand_total :=
    (repayment + total_tax + Np.Fin (down_payment m)
     + total_PMI_payment m)%np in
  summary_value m "Total tax paid" = Some total_tax
  /\ summary_value m "monthly payment + tax (approx)"
     = Some (payment + Np.Fin (monthly_PMI_payment m) + monthly_tax)%np
  /\ summary_value m "Total loan payment" = Some repayment
  /\ summary_value m "Total interest paid"
     = Some (repayment - Np.Fin (principal m))%np
  /\ summary_value m "Total PMI paid" = Some (total_PMI_payment m)
  /\ summary_value m "Total cost (no tax)" = Some cost_no_tax
  /\ summary_value m "Grand total" = Some grand_total
  /\ Np.same grand_total (cost_no_tax + total_tax)%np.
Proof.
  intros m payment repayment total_tax monthly_tax cost_no_tax grand_total.
  destruct (init_summary price years rate fraction pmi) as [Hs _].
  fold m in Hs.
  unfold summary_value. rewrite Hs. cbn [data _style].
  assert (Hrows := compute_summary_rows).
  pose proof (init_total_PMI_finite price years rate fraction pmi) as Hfin.
  fold m in Hfin.
  subst m. unfold __init__ in *.
  match goal with
  | |- context [df_summary (compute_summary ?s)] =>
      specialize (Hrows s); cbv zeta in Hrows;
      destruct Hrows as (H1 & H2 & H3 & H4 & H5 & H6 & H7)
  end.
  split; [exact H1|]. split; [exact H2|]. split; [exact H3|].
  split; [exact H4|]. split; [exact H5|]. split; [exact H6|].
  split; [exact H7|].
  apply grand_total_regrouped. exact Hfin.
Qed.

(** C7, as stated, fails in binary64: the grand total adds the tax
    second and the cost without tax does not contain it, so that the two
    sums round differently.  For a price of 448.0 over one year at the
    rate 12.0 with a fourth paid down, the grand total is
    4150.450215384615 and cost plus tax is 4150.450215384616. *)
Lemma grand_total_is_not_cost_plus_tax :
  let grand_total := B64.grand_total 448 1 12 0.25 0.01 in
  let cost_plus_tax :=
    (B64.total_cost_no_tax 448 1 12 0.25 0.01 + B64.total_tax 448 1)%float in
  PrimFloat.eqb grand_total cost_plus_tax = false
  /\ PrimFloat.eqb grand_total 4150.450215384615 = true
  /\ PrimFloat.eqb cost_plus_tax 4150.450215384616 = true.
Proof. vm_compute. repeat split. Qed.

(** ** The memoized summary *)

(** C8: two calls of [summary] on a mortgage whose parameters are not
    changed in between return identical records; the second call leaves
    the object as the first one left it. *)
Theorem summary_twice_identical (self : Mortgage) :
  let (first, self1) := summary self in
  let (second, self2) := summary self1 in
  second = first /\ self2 = self1.
Proof.
  unfold summary.
  destruct (summary_table self) as [t|] eqn:E; cbv zeta.
  - rewrite !E. split; reflexivity.
  - rewrite !compute_summary_table. split; reflexivity.
Qed.

(** The table of a constructed mortgage exists, so [summary] returns it
    without building it again. *)
Lemma summary_of_constructed (price : Q) (years : Z) (rate fraction pmi : Q) :
  let m := __init__ price years rate fraction pmi in
  exists t, summary m = (Some t, m) /\ data t = df_summary m.
Proof.
  intros m. destruct (init_summary price years rate fraction pmi) as [H1 H2].
  fold m in H1, H2. exists (_style (df_summary m)).
  split; [|reflexivity].
  rewrite (surjective_pairing (summary m)), H1, H2. reflexivity.
Qed.

(** ** The helper that counts the insurance payments *)

Lemma p_is_not_global : load_global module_globals "p" = Raise (NameError "p").
Proof. reflexivity. Qed.

(** C10: on every mortgage [get_num_insurance_payments] raises
    [NameError] for the name [p], so it returns no month count; and with
    [p] bound to the balance function, a largest balance below 0.8 times
    the price makes it return without a value. *)
Theorem get_num_insurance_payments_fails :
  (forall self : Mortgage,
     get_num_insurance_payments self = Raise (NameError "p"))
  /\ (forall (self : Mortgage) (largest : Np.num),
        py_max (_p_vec (Np.arange (num_months self)) (principal self)
                  (num_months self) (interest_rate self / 12))
        = Ok largest ->
        Np.ltb largest (Np.Fin (0.8 * total_price self)) = true ->
        get_num_insurance_payments_in globals_with_p self = Ok None).
Proof.
  split.
  - intros self. unfold get_num_insurance_payments,
      get_num_insurance_payments_in.
    rewrite p_is_not_global. reflexivity.
  - intros self largest Hmax Hlt.
    unfold get_num_insurance_payments_in, globals_with_p.
    cbn [load_global String.eqb Ascii.eqb Bool.eqb bind call_series].
    rewrite Hmax. cbn [bind].
    replace (Np.geb largest (Np.Fin (0.8 * total_price self))) with false;
      [reflexivity|].
    symmetry. unfold Np.geb, Np.leb.
    destruct largest as [q| | |]; cbn in Hlt |- *;
      try discriminate Hlt; try reflexivity.
    rewrite Hlt. reflexivity.
Qed.

Lemma get_num_insurance_payments_fails_witness :
  let m := __init__ 1000 1 (12 # 100) (1 # 2) PMI_rate_default in
  get_num_insurance_payments m = Raise (NameError "p")
  /\ get_num_insurance_payments_in globals_with_p m = Ok None.
Proof.
  intros m. destruct get_num_insurance_payments_fails as [H1 H2].
  split; [apply H1|].
  eapply H2.
  - vm_compute. reflexivity.
  - vm_compute. reflexivity.
Defined.

(** * Further properties of the schedule *)

(** ** The schedule over the rationals *)

Lemma rate_base_pos (alpha : Q) : 0 < alpha -> 0 < 1 + alpha.
Proof.
  intros Ha. apply Qlt_trans with alpha; [exact Ha|].
  setoid_replace alpha with (0 + alpha) at 1 by ring.
  apply Qplus_lt_l. reflexivity.
Qed.

Lemma rate_base_gt_1 (alpha : Q) : 0 < alpha -> 1 < 1 + alpha.
Proof.
  intros Ha. setoid_replace 1 with (1 + 0) at 1 by ring.
  apply Qplus_lt_r. exact Ha.
Qed.

Lemma divisor_pos (alpha : Q) (N : Z) :
  0 < alpha -> (0 < N)%Z -> 0 < (1 + alpha) ^ N + - (1).
Proof.
  intros Ha HN. pose proof (growth_gt_1 alpha N Ha HN) as H.
  apply Qlt_minus_iff in H. exact H.
Qed.

Lemma power_succ (a : Q) (k : Z) : (0 <= k)%Z -> a ^ (k + 1) == a ^ k * a.
Proof.
  intros Hk. rewrite Qpower_plus' by lia. reflexivity.
Qed.

(** The balance in one fraction. *)
Lemma p_closed_fraction (k : Z) (P : Q) (N : Z) (alpha : Q) :
  ~ (1 + alpha) ^ N == 1 ->
  p_closed k P N alpha
  == P * ((1 + alpha) ^ N - (1 + alpha) ^ k) / ((1 + alpha) ^ N + - (1)).
Proof.
  intros Hd. unfold p_closed. field. apply denominator_nonzero. exact Hd.
Qed.

Lemma p_closed_recurrence (k : Z) (P : Q) (N : Z) (alpha : Q) :
  (0 <= k)%Z -> ~ (1 + alpha) ^ N == 1 ->
  p_closed (k + 1) P N alpha
  == p_closed k P N alpha * (1 + alpha) - f_closed P N alpha.
Proof.
  intros Hk Hd. unfold p_closed, f_closed.
  rewrite (power_succ _ k Hk).
  field. apply denominator_nonzero. exact Hd.
Qed.

Lemma x_closed_is_drop (k : Z) (P : Q) (N : Z) (alpha : Q) :
  (0 <= k)%Z -> ~ (1 + alpha) ^ N == 1 ->
  x_closed k P N alpha == p_closed k P N alpha - p_closed (k + 1) P N alpha.
Proof.
  intros Hk Hd. unfold x_closed.
  rewrite (p_closed_recurrence k P N alpha Hk Hd). ring.
Qed.

Lemma p_closed_start (P : Q) (N : Z) (alpha : Q) :
  ~ (1 + alpha) ^ N == 1 -> p_closed 0 P N alpha == P.
Proof.
  intros Hd. unfold p_closed. change ((1 + alpha) ^ 0) with 1.
  field. apply denominator_nonzero. exact Hd.
Qed.

Lemma p_closed_end (P : Q) (N : Z) (alpha : Q) :
  ~ (1 + alpha) ^ N == 1 -> p_closed N P N alpha == 0.
Proof.
  intros Hd. unfold p_closed. field. apply denominator_nonzero. exact Hd.
Qed.

(** Later months have a lower balance. *)
Lemma p_closed_antitone (i j : Z) (P : Q) (N : Z) (alpha : Q) :
  0 < P -> (0 < N)%Z -> 0 < alpha -> (i < j)%Z ->
  p_closed j P N alpha < p_closed i P N alpha.
Proof.
  intros HP HN Ha Hij.
  pose proof (growth_neq_1 alpha N Ha HN) as Hd.
  pose proof (divisor_pos alpha N Ha HN) as Hpos.
  apply Qlt_minus_iff.
  assert (E : p_closed i P N alpha + - p_closed j P N alpha
              == P * ((1 + alpha) ^ j - (1 + alpha) ^ i)
                 / ((1 + alpha) ^ N + - (1))).
  { rewrite (p_closed_fraction i), (p_closed_fraction j) by exact Hd.
    field. apply denominator_nonzero. exact Hd. }
  rewrite E. apply Qlt_shift_div_l; [exact Hpos|].
  rewrite Qmult_0_l. apply Qmult_lt_0_compat; [exact HP|].
  unfold Qminus. rewrite <- Qlt_minus_iff.
  apply Qpower_lt_compat_l; [exact Hij|]. apply rate_base_gt_1. exact Ha.
Qed.

Lemma p_closed_pos (k : Z) (P : Q) (N : Z) (alpha : Q) :
  0 < P -> (0 < N)%Z -> 0 < alpha -> (k < N)%Z ->
  0 < p_closed k P N alpha.
Proof.
  intros HP HN Ha Hk.
  pose proof (growth_neq_1 alpha N Ha HN) as Hd.
  rewrite <- (p_closed_end P N alpha Hd).
  apply p_closed_antitone; assumption.
Qed.

Lemma p_closed_le_start (k : Z) (P : Q) (N : Z) (alpha : Q) :
  0 < P -> (0 < N)%Z -> 0 < alpha -> (0 <= k)%Z ->
  p_closed k P N alpha <= P.
Proof.
  intros HP HN Ha Hk.
  pose proof (growth_neq_1 alpha N Ha HN) as Hd.
  rewrite <- (p_closed_start P N alpha Hd) at 2.
  destruct (Z.eq_dec k 0) as [->|Hk0]; [apply Qle_refl|].
  apply Qlt_le_weak. apply p_closed_antitone; try assumption. lia.
Qed.

Lemma x_closed_pos (k : Z) (P : Q) (N : Z) (alpha : Q) :
  0 < P -> (0 < N)%Z -> 0 < alpha -> (0 <= k)%Z ->
  0 < x_closed k P N alpha.
Proof.
  intros HP HN Ha Hk.
  pose proof (growth_neq_1 alpha N Ha HN) as Hd.
  rewrite (x_closed_is_drop k P N alpha Hk Hd).
  unfold Qminus. rewrite <- Qlt_minus_iff.
  apply p_closed_antitone; try assumption. lia.
Qed.

Lemma X_finite (k : Z) (P : Q) (N : Z) (alpha : Q) :
  (0 <= N)%Z -> ~ (1 + alpha) ^ N == 1 -> (0 <= k)%Z ->
  _X k P N alpha = Np.Fin (x_closed k P N alpha).
Proof.
  intros HN Hd Hk. unfold _X.
  rewrite (p_finite P alpha N HN Hd k Hk), (f_finite P alpha N HN Hd).
  reflexivity.
Qed.

Lemma I_finite (k : Z) (P : Q) (N : Z) (alpha : Q) :
  (0 <= N)%Z -> ~ (1 + alpha) ^ N == 1 -> (0 <= k)%Z ->
  _I k P N alpha = Np.Fin (i_closed k P N alpha).
Proof.
  intros HN Hd Hk. unfold _I.
  rewrite (p_finite P alpha N HN Hd k Hk). reflexivity.
Qed.

Lemma ltb_fin (a b : Q) : a < b -> Np.ltb (Np.Fin a) (Np.Fin b) = true.
Proof. intros H. cbn [Np.ltb]. apply (Qltb_true a b H). Qed.

Lemma leb_fin (a b : Q) : a <= b -> Np.leb (Np.Fin a) (Np.Fin b) = true.
Proof.
  intros H. cbn [Np.leb Np.ltb]. rewrite negb_involutive.
  apply Qle_bool_iff. exact H.
Qed.

Lemma in_arange (N k : Z) : In k (Np.arange N) <-> (0 <= k < N)%Z.
Proof.
  unfold Np.arange. rewrite in_map_iff. split.
  - intros [n [<- Hn]]. apply in_seq in Hn. lia.
  - intros H. exists (Z.to_nat k). split; [lia|]. apply in_seq. lia.
Qed.

Lemma arange_length (N : Z) : List.length (Np.arange N) = Z.to_nat N.
Proof. unfold Np.arange. now rewrite length_map, length_seq. Qed.

Lemma arange_succ (n : nat) :
  Np.arange (Z.of_nat (S n)) = Np.arange (Z.of_nat n) ++ [Z.of_nat n].
Proof.
  unfold Np.arange. rewrite !Nat2Z.id, seq_S, map_app. reflexivity.
Qed.

Lemma Qsum_app (l l' : list Q) : Qsum (l ++ l') == Qsum l + Qsum l'.
Proof.
  unfold Qsum. induction l as [|a l IH]; cbn [app fold_right].
  - ring.
  - rewrite IH. ring.
Qed.

(** [np.sum] of finite values is the finite sum. *)
Lemma sum_of_finite (l : list Q) :
  exists q, Np.sum (map Np.Fin l) = Np.Fin q /\ q == Qsum l.
Proof.
  unfold Np.sum.
  assert (H : forall acc, exists q,
             fold_left Np.add (map Np.Fin l) (Np.Fin acc) = Np.Fin q
             /\ q == acc + Qsum l).
  { induction l as [|a l IH]; intros acc.
    - exists acc. split; [reflexivity|]. unfold Qsum. cbn [fold_right]. ring.
    - cbn [map fold_left Np.add]. destruct (IH (acc + a)) as [q [E Hq]].
      exists q. split; [exact E|]. rewrite Hq. unfold Qsum.
      cbn [fold_right]. ring. }
  destruct (H 0) as [q [E Hq]]. exists q. split; [exact E|].
  rewrite Hq. ring.
Qed.

(** The principal portions of the first [n] months add up to the drop of
    the balance over these months. *)
Lemma x_closed_telescope (n : nat) (P : Q) (N : Z) (alpha : Q) :
  ~ (1 + alpha) ^ N == 1 ->
  Qsum (map (fun k => x_closed k P N alpha) (Np.arange (Z.of_nat n)))
  == p_closed 0 P N alpha - p_closed (Z.of_nat n) P N alpha.
Proof.
  intros Hd. induction n as [|n IH].
  - cbn [Np.arange Z.to_nat Z.of_nat seq map Qsum fold_right]. ring.
  - rewrite arange_succ, map_app, Qsum_app, IH.
    cbn [map Qsum fold_right].
    rewrite (x_closed_is_drop (Z.of_nat n) P N alpha) by (lia || exact Hd).
    rewrite Nat2Z.inj_succ. unfold Z.succ. ring.
Qed.

Lemma i_closed_total (n : nat) (P : Q) (N : Z) (alpha : Q) :
  ~ (1 + alpha) ^ N == 1 ->
  Qsum (map (fun k => i_closed k P N alpha) (Np.arange (Z.of_nat n)))
  == inject_Z (Z.of_nat n) * f_closed P N alpha
     - (p_closed 0 P N alpha - p_closed (Z.of_nat n) P N alpha).
Proof.
  intros Hd. induction n as [|n IH].
  - cbn [Np.arange Z.to_nat Z.of_nat seq map Qsum fold_right].
    change (inject_Z 0) with 0. ring.
  - rewrite arange_succ, map_app, Qsum_app, IH.
    cbn [map Qsum fold_right].
    assert (E : i_closed (Z.of_nat n) P N alpha
                == f_closed P N alpha - x_closed (Z.of_nat n) P N alpha).
    { unfold i_closed, x_closed. ring. }
    rewrite E, (x_closed_is_drop (Z.of_nat n) P N alpha) by (lia || exact Hd).
    rewrite (Nat2Z.inj_succ n). unfold Z.succ.
    rewrite inject_Z_plus. change (inject_Z 1) with 1. ring.
Qed.

Lemma X_series_finite (P : Q) (N : Z) (alpha : Q) :
  (0 <= N)%Z -> ~ (1 + alpha) ^ N == 1 ->
  _X_vec (Np.arange N) P N alpha
  = map Np.Fin (map (fun k => x_closed k P N alpha) (Np.arange N)).
Proof.
  intros HN Hd. rewrite X_vec_is_map, map_map.
  apply map_ext_in. intros k Hk. apply in_arange in Hk.
  apply X_finite; [exact HN|exact Hd|lia].
Qed.

Lemma I_series_finite (P : Q) (N : Z) (alpha : Q) :
  (0 <= N)%Z -> ~ (1 + alpha) ^ N == 1 ->
  _I_vec (Np.arange N) P N alpha
  = map Np.Fin (map (fun k => i_closed k P N alpha) (Np.arange N)).
Proof.
  intros HN Hd. rewrite I_vec_is_map, map_map.
  apply map_ext_in. intros k Hk. apply in_arange in Hk.
  apply I_finite; [exact HN|exact Hd|lia].
Qed.

Lemma p_series_finite (P : Q) (N : Z) (alpha : Q) :
  (0 <= N)%Z -> ~ (1 + alpha) ^ N == 1 ->
  _p_vec (Np.arange N) P N alpha
  = map Np.Fin (map (fun k => p_closed k P N alpha) (Np.arange N)).
Proof.
  intros HN Hd. rewrite p_vec_is_map, map_map.
  apply map_ext_in. intros k Hk. apply in_arange in Hk.
  apply p_finite; [exact HN|exact Hd|lia].
Qed.

(** ** The schedule of the program, in exact arithmetic *)

(** X1: in exact arithmetic the closed form satisfies the amortization
    recurrence: when the divisor [(1+alpha)^N - 1] is not zero, the
    balance after payment [k+1] is the balance after payment [k], with
    one month of interest added and the fixed payment taken off. *)
Theorem balance_recurrence (k : Z) (P : Q) (N : Z) (alpha : Q) :
  (0 <= N)%Z -> (0 <= k)%Z -> ~ (1 + alpha) ^ N == 1 ->
  Np.eqb (_p (k + 1) P N alpha)
         (_p k P N alpha * Np.Fin (1 + alpha) - _f P N alpha)%np = true.
Proof.
  intros HN Hk Hd.
  rewrite (p_finite P alpha N HN Hd k Hk), (f_finite P alpha N HN Hd).
  rewrite (p_finite P alpha N HN Hd (k + 1)) by lia.
  cbn [Np.mul Np.sub Np.add Np.neg Np.eqb].
  apply Qeq_bool_true.
  rewrite (p_closed_recurrence k P N alpha Hk Hd). ring.
Qed.

Lemma balance_recurrence_witness :
  Np.eqb (_p (3 + 1) 1000 12 (1 # 100))
         (_p 3 1000 12 (1 # 100) * Np.Fin (1 + (1 # 100))
          - _f 1000 12 (1 # 100))%np = true.
Proof.
  apply balance_recurrence.
  - lia.
  - lia.
  - vm_compute. discriminate.
Defined.

(** X2: in exact arithmetic and with a divisor that is not zero, the
    principal portion of month [k] is the amount by which the balance
    goes down from month [k] to month [k+1]. *)
Theorem principal_payment_is_balance_drop (k : Z) (P : Q) (N : Z) (alpha : Q) :
  (0 <= N)%Z -> (0 <= k)%Z -> ~ (1 + alpha) ^ N == 1 ->
  Np.eqb (_X k P N alpha) (_p k P N alpha - _p (k + 1) P N alpha)%np = true.
Proof.
  intros HN Hk Hd.
  rewrite (X_finite k P N alpha HN Hd Hk).
  rewrite (p_finite P alpha N HN Hd k Hk).
  rewrite (p_finite P alpha N HN Hd (k + 1)) by lia.
  cbn [Np.sub Np.add Np.neg Np.eqb].
  apply Qeq_bool_true.
  rewrite (x_closed_is_drop k P N alpha Hk Hd). ring.
Qed.

Lemma principal_payment_is_balance_drop_witness :
  Np.eqb (_X 3 1000 12 (1 # 100))
         (_p 3 1000 12 (1 # 100) - _p (3 + 1) 1000 12 (1 # 100))%np = true.
Proof.
  apply principal_payment_is_balance_drop.
  - lia.
  - lia.
  - vm_compute. discriminate.
Defined.

(** X3: in exact arithmetic, for a positive principal, rate and term,
    the balance of every month of the term is positive and at most the
    principal. *)
Theorem balance_within_principal (k : Z) (P : Q) (N : Z) (alpha : Q) :
  0 < P -> (0 < N)%Z -> 0 < alpha -> (0 <= k < N)%Z ->
  Np.ltb (Np.Fin 0) (_p k P N alpha) = true
  /\ Np.leb (_p k P N alpha) (Np.Fin P) = true.
Proof.
  intros HP HN Ha [Hk HkN].
  pose proof (growth_neq_1 alpha N Ha HN) as Hd.
  rewrite (p_finite P alpha N (Z.lt_le_incl _ _ HN) Hd k Hk). split.
  - apply ltb_fin. apply p_closed_pos; assumption.
  - apply leb_fin. apply p_closed_le_start; assumption.
Qed.

Lemma balance_within_principal_witness :
  Np.ltb (Np.Fin 0) (_p 3 1000 12 (1 # 100)) = true
  /\ Np.leb (_p 3 1000 12 (1 # 100)) (Np.Fin 1000) = true.
Proof.
  apply balance_within_principal.
  - reflexivity.
  - lia.
  - reflexivity.
  - lia.
Defined.

(** X4: in exact arithmetic, over the whole term the principal
    portions add up to the principal: the schedule repays exactly the
    loan. *)
Theorem principal_payments_sum_to_principal (P : Q) (N : Z) (alpha : Q) :
  (0 < N)%Z -> 0 < alpha ->
  Np.eqb (Np.sum (_X_vec (Np.arange N) P N alpha)) (Np.Fin P) = true.
Proof.
  intros HN Ha.
  pose proof (growth_neq_1 alpha N Ha HN) as Hd.
  rewrite (X_series_finite P N alpha (Z.lt_le_incl _ _ HN) Hd).
  destruct (sum_of_finite
              (map (fun k => x_closed k P N alpha) (Np.arange N)))
    as [q [E Hq]].
  rewrite E. cbn [Np.eqb]. apply Qeq_bool_true. rewrite Hq.
  replace (Np.arange N) with (Np.arange (Z.of_nat (Z.to_nat N)))
    by (rewrite Z2Nat.id by lia; reflexivity).
  rewrite (x_closed_telescope (Z.to_nat N) P N alpha Hd).
  rewrite Z2Nat.id by lia.
  rewrite (p_closed_start P N alpha Hd), (p_closed_end P N alpha Hd). ring.
Qed.

Lemma principal_payments_sum_to_principal_witness :
  Np.eqb (Np.sum (_X_vec (Np.arange 12) 1000 12 (1 # 100))) (Np.Fin 1000)
  = true.
Proof.
  apply principal_payments_sum_to_principal.
  - lia.
  - reflexivity.
Defined.

(** X5: in exact arithmetic, over the whole term the interest portions
    add up to the total repayment less the principal, the total interest
    of the summary. *)
Theorem interest_payments_sum_to_total_interest (P : Q) (N : Z) (alpha : Q) :
  (0 < N)%Z -> 0 < alpha ->
  Np.eqb (Np.sum (_I_vec (Np.arange N) P N alpha))
         (_total P N alpha - Np.Fin P)%np = true.
Proof.
  intros HN Ha.
  pose proof (growth_neq_1 alpha N Ha HN) as Hd.
  assert (HN' : (0 <= N)%Z) by lia.
  rewrite (I_series_finite P N alpha HN' Hd).
  destruct (sum_of_finite
              (map (fun k => i_closed k P N alpha) (Np.arange N)))
    as [q [E Hq]].
  rewrite E. unfold _total. rewrite (f_finite P alpha N HN' Hd).
  cbn [Np.mul Np.sub Np.add Np.neg Np.eqb].
  apply Qeq_bool_true. rewrite Hq.
  replace (Np.arange N) with (Np.arange (Z.of_nat (Z.to_nat N)))
    by (rewrite Z2Nat.id by lia; reflexivity).
  rewrite (i_closed_total (Z.to_nat N) P N alpha Hd).
  rewrite Z2Nat.id by lia.
  rewrite (p_closed_start P N alpha Hd), (p_closed_end P N alpha Hd). ring.
Qed.

Lemma interest_payments_sum_to_total_interest_witness :
  Np.eqb (Np.sum (_I_vec (Np.arange 12) 1000 12 (1 # 100)))
         (_total 1000 12 (1 # 100) - Np.Fin 1000)%np = true.
Proof.
  apply interest_payments_sum_to_total_interest.
  - lia.
  - reflexivity.
Defined.

Lemma Qsum_nonneg (l : list Q) :
  (forall x, In x l -> 0 < x) -> 0 <= Qsum l.
Proof.
  induction l as [|a l IH]; intros Hpos.
  - apply Qle_refl.
  - unfold Qsum. cbn [fold_right]. fold (Qsum l).
    apply (Qplus_le_compat 0 a 0 (Qsum l)).
    + apply Qlt_le_weak. apply Hpos. now left.
    + apply IH. intros x Hx. apply Hpos. now right.
Qed.

Lemma Qsum_pos (l : list Q) :
  l <> [] -> (forall x, In x l -> 0 < x) -> 0 < Qsum l.
Proof.
  intros Hne Hpos. destruct l as [|a l]; [contradiction|].
  unfold Qsum. cbn [fold_right]. fold (Qsum l).
  apply (Qplus_lt_le_compat 0 a 0 (Qsum l)).
  - apply Hpos. now left.
  - apply Qsum_nonneg. intros x Hx. apply Hpos. now right.
Qed.

Lemma repayment_closed_gt_principal (P : Q) (N : Z) (alpha : Q) :
  0 < P -> (0 < N)%Z -> 0 < alpha ->
  P < inject_Z N * f_closed P N alpha.
Proof.
  intros HP HN Ha.
  pose proof (growth_neq_1 alpha N Ha HN) as Hd.
  apply Qlt_minus_iff.
  assert (E : inject_Z N * f_closed P N alpha + - P
              == Qsum (map (fun k => i_closed k P N alpha) (Np.arange N))).
  { replace (Np.arange N) with (Np.arange (Z.of_nat (Z.to_nat N)))
      by (rewrite Z2Nat.id by lia; reflexivity).
    rewrite (i_closed_total (Z.to_nat N) P N alpha Hd).
    rewrite Z2Nat.id by lia.
    rewrite (p_closed_start P N alpha Hd), (p_closed_end P N alpha Hd). ring. }
  rewrite E. apply Qsum_pos.
  - intros H. apply (f_equal (@List.length Q)) in H.
    rewrite length_map, arange_length in H. cbn in H. lia.
  - intros x Hx. apply in_map_iff in Hx. destruct Hx as [k [<- Hk]].
    apply in_arange in Hk. unfold i_closed.
    apply Qmult_lt_0_compat; [exact Ha|].
    apply p_closed_pos; try assumption. lia.
Qed.

(** X6: in exact arithmetic, for a positive principal, rate and term
    the total repayment is more than the principal: the total interest
    is positive. *)
Theorem total_repayment_exceeds_principal (P : Q) (N : Z) (alpha : Q) :
  0 < P -> (0 < N)%Z -> 0 < alpha ->
  Np.ltb (Np.Fin P) (_total P N alpha) = true.
Proof.
  intros HP HN Ha.
  pose proof (growth_neq_1 alpha N Ha HN) as Hd.
  assert (HN' : (0 <= N)%Z) by lia.
  unfold _total. rewrite (f_finite P alpha N HN' Hd).
  cbn [Np.mul]. apply ltb_fin.
  apply repayment_closed_gt_principal; assumption.
Qed.

Lemma total_repayment_exceeds_principal_witness :
  Np.ltb (Np.Fin 1000) (_total 1000 12 (1 # 100)) = true.
Proof.
  apply total_repayment_exceeds_principal.
  - reflexivity.
  - lia.
  - reflexivity.
Defined.

(** X7: in exact arithmetic, for a positive principal, rate and term,
    in every month of the term both portions of the payment are
    positive, the interest portion of the next month is smaller and the
    principal portion of the next month is larger. *)
Theorem payment_split_shifts_to_principal (k : Z) (P : Q) (N : Z) (alpha : Q) :
  0 < P -> (0 < N)%Z -> 0 < alpha -> (0 <= k < N)%Z ->
  Np.ltb (Np.Fin 0) (_I k P N alpha) = true
  /\ Np.ltb (Np.Fin 0) (_X k P N alpha) = true
  /\ Np.ltb (_I (k + 1) P N alpha) (_I k P N alpha) = true
  /\ Np.ltb (_X k P N alpha) (_X (k + 1) P N alpha) = true.
Proof.
  intros HP HN Ha [Hk HkN].
  pose proof (growth_neq_1 alpha N Ha HN) as Hd.
  assert (HN' : (0 <= N)%Z) by lia.
  assert (Hk1 : (0 <= k + 1)%Z) by lia.
  rewrite (I_finite k P N alpha HN' Hd Hk).
  rewrite (I_finite (k + 1) P N alpha HN' Hd Hk1).
  rewrite (X_finite k P N alpha HN' Hd Hk).
  rewrite (X_finite (k + 1) P N alpha HN' Hd Hk1).
  assert (Hstep : p_closed (k + 1) P N alpha < p_closed k P N alpha).
  { apply p_closed_antitone; try assumption. lia. }
  assert (Hi : alpha * p_closed (k + 1) P N alpha
               < alpha * p_closed k P N alpha).
  { apply Qmult_lt_l; assumption. }
  split; [|split; [|split]]; apply ltb_fin.
  - unfold i_closed. apply Qmult_lt_0_compat; [exact Ha|].
    apply p_closed_pos; assumption.
  - apply x_closed_pos; assumption.
  - exact Hi.
  - unfold x_closed. apply Qplus_lt_r.
    apply Qopp_lt_compat. exact Hi.
Qed.

Lemma payment_split_shifts_to_principal_witness :
  Np.ltb (Np.Fin 0) (_I 3 1000 12 (1 # 100)) = true
  /\ Np.ltb (Np.Fin 0) (_X 3 1000 12 (1 # 100)) = true
  /\ Np.ltb (_I (3 + 1) 1000 12 (1 # 100)) (_I 3 1000 12 (1 # 100)) = true
  /\ Np.ltb (_X 3 1000 12 (1 # 100)) (_X (3 + 1) 1000 12 (1 # 100)) = true.
Proof.
  apply payment_split_shifts_to_principal.
  - reflexivity.
  - lia.
  - reflexivity.
  - lia.
Defined.

(** ** The zero rate *)

Lemma zero_rate_power (alpha : Q) (e : Z) :
  alpha == 0 ->
  Np.power (1 + alpha) e = Np.Fin ((1 + alpha) ^ e) /\ (1 + alpha) ^ e == 1.
Proof.
  intros H0. assert (H1 : 1 + alpha == 1) by (rewrite H0; ring). split.
  - unfold Np.power.
    rewrite (Qeq_bool_false (1 + alpha) 0), andb_false_r; [reflexivity|].
    rewrite H1. discriminate.
  - rewrite H1. apply Qpower_1.
Qed.

Lemma zero_rate_payment (P : Q) (N : Z) (alpha : Q) :
  alpha == 0 -> _f P N alpha = Np.NaN.
Proof.
  intros H0. destruct (zero_rate_power alpha N H0) as [EN HN].
  unfold _f. rewrite EN.
  cbn [Np.mul Np.sub Np.add Np.neg Np.div].
  rewrite (Qeq_bool_true ((1 + alpha) ^ N + - (1)) 0) by (rewrite HN; ring).
  rewrite (Qeq_bool_true (alpha * (1 + alpha) ^ N * P) 0)
    by (rewrite H0; ring).
  reflexivity.
Qed.

Lemma zero_rate_balance (k : Z) (P : Q) (N : Z) (alpha : Q) :
  alpha == 0 -> _p k P N alpha = Np.NaN.
Proof.
  intros H0. destruct (zero_rate_power alpha N H0) as [EN HN].
  destruct (zero_rate_power alpha k H0) as [Ek Hk].
  unfold _p. rewrite EN, Ek.
  cbn [Np.mul Np.sub Np.add Np.neg Np.div].
  rewrite (Qeq_bool_true ((1 + alpha) ^ N + - (1)) 0) by (rewrite HN; ring).
  rewrite (Qeq_bool_true
             (P * (1 + alpha) ^ N * ((1 + alpha) ^ k + - (1))) 0)
    by (rewrite Hk; ring).
  reflexivity.
Qed.

(** X8: at a zero rate the whole schedule is nan, not only the payment:
    the balance, the interest portion and the principal portion of every
    month, and the total repayment, for every principal and term. *)
Theorem zero_rate_schedule_is_nan (k : Z) (P : Q) (N : Z) :
  _p k P N 0 = Np.NaN
  /\ _I k P N 0 = Np.NaN
  /\ _X k P N 0 = Np.NaN
  /\ _total P N 0 = Np.NaN.
Proof.
  assert (H0 : 0 == 0) by reflexivity.
  unfold _I, _X, _total.
  rewrite (zero_rate_balance k P N 0 H0), (zero_rate_payment P N 0 H0).
  repeat split.
Qed.

Lemma zero_rate_months (self : Mortgage) :
  interest_rate self == 0 -> months_above_threshold self = [].
Proof.
  intros H0. unfold months_above_threshold.
  assert (Ha : interest_rate self / 12 == 0) by (rewrite H0; reflexivity).
  induction (Np.arange (num_months self)) as [|k l IH]; [reflexivity|].
  cbn [filter]. rewrite (zero_rate_balance k _ _ _ Ha). exact IH.
Qed.

Lemma compute_summary_monthly_rows (self : Mortgage) :
  let after := compute_summary self in
  let payment :=
    _f (principal after) (num_months after) (interest_rate after / 12) in
  let df := df_summary after in
  loc "monthly PMI Insurance" df = Some (Np.Fin (monthly_PMI_payment after))
  /\ loc "monthly principal + interest" df = Some payment
  /\ loc "monthly payment" df
     = Some (payment + Np.Fin (monthly_PMI_payment after))%np.
Proof.
  unfold compute_summary.
  destruct (Qltb (down_payment_fraction self) 0.2); repeat split.
Qed.

(** X9: a mortgage with the rate 0 is constructed without an error; no
    month counts as above the insurance threshold, so its insurance total
    is 0 whatever the down payment, and its monthly payment, total
    repayment and grand total are nan. *)
Theorem zero_rate_mortgage (price : Q) (years : Z) (fraction pmi : Q) :
  let m := __init__ price years 0 fraction pmi in
  months_above_threshold m = []
  /\ total_PMI_payment m = Np.Fin 0
  /\ summary_value m "monthly principal + interest" = Some Np.NaN
  /\ summary_value m "Total loan payment" = Some Np.NaN
  /\ summary_value m "Grand total" = Some Np.NaN.
Proof.
  intros m.
  destruct (init_inputs price years 0 fraction pmi)
    as (_ & _ & _ & Hr & _ & _ & _ & _ & _).
  fold m in Hr.
  assert (H0 : interest_rate m == 0) by (rewrite Hr; reflexivity).
  assert (Ha : interest_rate m / 12 == 0) by (rewrite H0; reflexivity).
  pose proof (zero_rate_months m H0) as Hm.
  assert (Ht : total_PMI_payment m = Np.Fin 0).
  { pose proof (init_total_PMI_payment price years 0 fraction pmi) as E.
    cbv zeta in E. fold m in E. rewrite E.
    unfold total_insurance_spec. rewrite Hm. reflexivity. }
  split; [exact Hm|]. split; [exact Ht|].
  destruct (init_summary price years 0 fraction pmi) as [Hs _].
  fold m in Hs. unfold summary_value. rewrite Hs. cbn [data _style].
  pose proof (zero_rate_payment (principal m) (num_months m) _ Ha) as Hf.
  revert Hf. subst m. unfold __init__.
  match goal with
  | |- context [df_summary (compute_summary ?s)] =>
      pose proof (compute_summary_rows s) as Hrows;
      pose proof (compute_summary_monthly_rows s) as Hmonthly;
      generalize dependent (compute_summary s)
  end.
  intros after Hrows Hmonthly Hf. cbv zeta in Hrows, Hmonthly.
  destruct Hrows as (_ & _ & H3 & _ & _ & _ & H7).
  destruct Hmonthly as (_ & H2 & _).
  unfold _total in H3, H7. rewrite Hf in H2, H3, H7.
  rewrite H2, H3, H7. repeat split.
Qed.

(** ** The run of months with insurance *)

(** X10: the months counted for the insurance are at most the months
    of the term and a term of no months gives the total 0; in exact
    arithmetic the insurance total is the monthly insurance payment
    times the number of months counted. *)
Theorem total_PMI_is_count_times_monthly (self : Mortgage) :
  exists q,
    _compute_total_PMI_payment self = Np.Fin q
    /\ q == inject_Z (Z.of_nat (List.length (months_above_threshold self)))
            * monthly_PMI_payment self
    /\ (List.length (months_above_threshold self)
        <= Z.to_nat (num_months self))%nat
    /\ ((num_months self <= 0)%Z -> q == 0).
Proof.
  rewrite compute_total_PMI_payment_spec. unfold total_insurance_spec.
  destruct (sum_of_constant (monthly_PMI_payment self)
                            (months_above_threshold self)) as [q [E Hq]].
  exists q. split; [exact E|]. split; [exact Hq|].
  assert (Hlen : (List.length (months_above_threshold self)
                  <= Z.to_nat (num_months self))%nat).
  { unfold months_above_threshold.
    rewrite <- (arange_length (num_months self)). apply filter_length_le. }
  split; [exact Hlen|].
  intros HN. rewrite Hq.
  replace (List.length (months_above_threshold self)) with 0%nat by lia.
  change (inject_Z (Z.of_nat 0)) with 0. ring.
Qed.

Lemma total_PMI_is_count_times_monthly_witness :
  let m := __init__ 1000 0 (12 # 100) (1 # 10) PMI_rate_default in
  exists q, _compute_total_PMI_payment m = Np.Fin q /\ q == 0.
Proof.
  intros m. destruct (total_PMI_is_count_times_monthly m)
    as [q (E & _ & _ & H0)].
  exists q. split; [exact E|]. apply H0. vm_compute. discriminate.
Defined.

(** A test that holds for every index below one where it holds selects
    an initial run of the indices. *)
Lemma filter_arange_prefix (f : Z -> bool) (n : nat) :
  (forall i j, (0 <= i < j)%Z -> (j < Z.of_nat n)%Z ->
               f j = true -> f i = true) ->
  exists c, (c <= n)%nat
            /\ filter f (Np.arange (Z.of_nat n)) = Np.arange (Z.of_nat c).
Proof.
  induction n as [|n IH]; intros Hf.
  - exists 0%nat. split; [lia|reflexivity].
  - destruct IH as [c [Hc E]].
    { intros i j Hij Hj. apply Hf; [exact Hij|lia]. }
    rewrite arange_succ, filter_app. cbn [filter].
    destruct (f (Z.of_nat n)) eqn:En.
    + exists (S n). split; [lia|].
      rewrite arange_succ. f_equal.
      apply forallb_filter_id. apply forallb_forall.
      intros i Hi. apply in_arange in Hi.
      apply (Hf i (Z.of_nat n)); [lia|lia|exact En].
    + exists c. split; [lia|]. rewrite E, app_nil_r. reflexivity.
Qed.

(** X11: in exact arithmetic, for a positive principal, rate and term
    the months counted for the insurance are the first [c] months of the
    term for some [c >= 1]: insurance is due from month 0 on and, once
    the balance is down to the threshold, never again. *)
Theorem insurance_months_are_a_prefix (self : Mortgage) :
  0 < principal self -> 0 < interest_rate self -> (0 < num_months self)%Z ->
  exists c,
    (0 < c <= num_months self)%Z
    /\ months_above_threshold self = Np.arange c.
Proof.
  intros HP Hr HN.
  set (P := principal self). set (N := num_months self).
  set (alpha := interest_rate self / 12).
  assert (Ha : 0 < alpha).
  { unfold alpha. apply Qlt_shift_div_l; [reflexivity|].
    rewrite Qmult_0_l. exact Hr. }
  pose proof (growth_neq_1 alpha N Ha HN) as Hd.
  assert (HN' : (0 <= N)%Z) by lia.
  assert (Hfilter : months_above_threshold self
                    = filter (fun k => Qltb (0.8 * P) (p_closed k P N alpha))
                             (Np.arange (Z.of_nat (Z.to_nat N)))).
  { unfold months_above_threshold. fold P N alpha.
    rewrite Z2Nat.id by exact HN'.
    apply filter_ext_in. intros k Hk. apply in_arange in Hk.
    rewrite (p_finite P alpha N HN' Hd k) by lia. reflexivity. }
  destruct (filter_arange_prefix
              (fun k => Qltb (0.8 * P) (p_closed k P N alpha)) (Z.to_nat N))
    as [c [Hc E]].
  { intros i j Hij Hj Hjt. unfold Qltb in *.
    apply negb_true_iff in Hjt. apply negb_true_iff.
    destruct (Qle_bool (p_closed i P N alpha) (0.8 * P)) eqn:Ei;
      [|reflexivity].
    exfalso. apply Qle_bool_iff in Ei.
    assert (Hlt : p_closed j P N alpha < p_closed i P N alpha).
    { apply p_closed_antitone; try assumption. lia. }
    assert (Hle : p_closed j P N alpha <= 0.8 * P).
    { apply Qlt_le_weak. apply Qlt_le_trans with (p_closed i P N alpha);
        assumption. }
    apply Qle_bool_iff in Hle. rewrite Hle in Hjt. discriminate. }
  exists (Z.of_nat c). rewrite Hfilter, E. split; [|reflexivity].
  split; [|lia].
  destruct c as [|c]; [|lia]. exfalso.
  assert (H0 : In 0%Z (filter (fun k => Qltb (0.8 * P) (p_closed k P N alpha))
                              (Np.arange (Z.of_nat (Z.to_nat N))))).
  { apply filter_In. split; [apply in_arange; lia|].
    apply Qltb_true. rewrite (p_closed_start P N alpha Hd).
    setoid_replace P with (1 * P) at 2 by ring.
    apply Qmult_lt_compat_r; [exact HP|reflexivity]. }
  rewrite E in H0. exact H0.
Qed.

Lemma insurance_months_are_a_prefix_witness :
  let m := __init__ 1000 1 (12 # 100) (1 # 10) PMI_rate_default in
  exists c, (0 < c <= num_months m)%Z
            /\ months_above_threshold m = Np.arange c.
Proof.
  intros m. apply insurance_months_are_a_prefix.
  - vm_compute. reflexivity.
  - vm_compute. reflexivity.
  - vm_compute. reflexivity.
Defined.

(** ** The table and its recomputation *)

(** X12: the summary of every mortgage has the same seventeen items in
    the same order, no item twice, so a lookup by item is unambiguous. *)
Theorem summary_has_fixed_items (self : Mortgage) :
  map fst (df_summary (compute_summary self)) = summary_items
  /\ NoDup (map fst (df_summary (compute_summary self))).
Proof.
  assert (E : map fst (df_summary (compute_summary self)) = summary_items).
  { unfold compute_summary.
    destruct (Qltb (down_payment_fraction self) 0.2); reflexivity. }
  split; [exact E|]. rewrite E. unfold summary_items.
  repeat (constructor; [cbn [In]; intuition discriminate|]).
  constructor.
Qed.

Lemma compute_summary_from_parameters (a b : Mortgage) :
  same_parameters a b -> compute_summary a = compute_summary b.
Proof.
  destruct a as [tp ny nm ir dpf dp pmi tr pr st mon tot df].
  destruct b as [tp' ny' nm' ir' dpf' dp' pmi' tr' pr' st' mon' tot' df'].
  unfold same_parameters. cbn.
  intros (-> & -> & -> & -> & -> & -> & -> & -> & ->).
  unfold compute_summary.
  cbn [down_payment_fraction].
  destruct (Qltb dpf' 0.2); reflexivity.
Qed.

(** X13: the summary depends on the nine parameters only, and building
    it leaves them as they are; so building it again changes nothing:
    the object after two calls of [compute_summary] is the object after
    one. *)
Theorem compute_summary_is_idempotent (self : Mortgage) :
  same_parameters (compute_summary self) self
  /\ compute_summary (compute_summary self) = compute_summary self.
Proof.
  assert (H : same_parameters (compute_summary self) self).
  { exact (compute_summary_inputs self). }
  split; [exact H|]. apply compute_summary_from_parameters. exact H.
Qed.

(** ** The helper that counts the insurance payments, with its name fixed *)

(** X14: whatever the global names are bound to, the only month count
    [get_num_insurance_payments] can return is 0. *)
Theorem get_num_insurance_payments_returns_only_zero
    (g : namespace) (self : Mortgage) (n : Z) :
  get_num_insurance_payments_in g self = Ok (Some n) -> n = 0%Z.
Proof.
  unfold get_num_insurance_payments_in, bind.
  destruct (load_global g "p") as [callee|e]; [|discriminate].
  destruct (call_series callee _ _ _ _) as [ps|e]; [|discriminate].
  destruct (py_max ps) as [largest|e]; [|discriminate].
  destruct (Np.geb largest _); intros H; inversion H. reflexivity.
Qed.

Lemma get_num_insurance_payments_returns_only_zero_witness :
  let m := __init__ 1000 1 (12 # 100) (1 # 10) PMI_rate_default in
  get_num_insurance_payments_in globals_with_p m = Ok (Some 0%Z) /\ 0%Z = 0%Z.
Proof.
  intros m.
  assert (H : get_num_insurance_payments_in globals_with_p m = Ok (Some 0%Z)).
  { vm_compute. reflexivity. }
  split; [exact H|].
  exact (get_num_insurance_payments_returns_only_zero globals_with_p m 0 H).
Defined.

Lemma arange_pos (N : Z) :
  (0 < N)%Z ->
  exists l, Np.arange N = 0%Z :: l /\ forall k, In k l -> (0 < k < N)%Z.
Proof.
  intros HN. unfold Np.arange.
  destruct (Z.to_nat N) as [|n] eqn:En; [lia|].
  cbn [seq map]. eexists. split; [reflexivity|].
  intros k Hk. apply in_map_iff in Hk. destruct Hk as [i [<- Hi]].
  apply in_seq in Hi. lia.
Qed.

Lemma fold_max_keeps_first (x : Np.num) (l : list Np.num) :
  (forall y, In y l -> Np.gtb y x = false) ->
  fold_left (fun cur y => if Np.gtb y cur then y else cur) l x = x.
Proof.
  induction l as [|y l IH]; intros H; [reflexivity|].
  cbn [fold_left]. rewrite (H y) by now left.
  apply IH. intros z Hz. apply H. now right.
Qed.

(** The largest balance of the term is the first one. *)
Lemma max_balance_is_first (P : Q) (N : Z) (alpha : Q) :
  0 < P -> (0 < N)%Z -> 0 < alpha ->
  py_max (_p_vec (Np.arange N) P N alpha)
  = Ok (Np.Fin (p_closed 0 P N alpha)).
Proof.
  intros HP HN Ha.
  pose proof (growth_neq_1 alpha N Ha HN) as Hd.
  rewrite (p_series_finite P N alpha (Z.lt_le_incl _ _ HN) Hd).
  destruct (arange_pos N HN) as [l [E Hl]]. rewrite E.
  cbn [map py_max]. f_equal. apply fold_max_keeps_first.
  intros y Hy. apply in_map_iff in Hy. destruct Hy as [q [<- Hq]].
  apply in_map_iff in Hq. destruct Hq as [k [<- Hk]].
  apply Hl in Hk. unfold Np.gtb. cbn [Np.ltb].
  apply (Qltb_false (p_closed 0 P N alpha) (p_closed k P N alpha)).
  apply Qlt_le_weak. apply p_closed_antitone; try assumption. lia.
Qed.

(** X15: in exact arithmetic, with [p] bound to the balance function
    and a positive principal, rate and term, the helper compares the
    principal with 0.8 times the price: it returns 0 when the principal
    is at least that much and returns without a value otherwise. *)
Theorem get_num_insurance_payments_with_p (self : Mortgage) :
  0 < principal self -> 0 < interest_rate self -> (0 < num_months self)%Z ->
  (0.8 * total_price self <= principal self ->
     get_num_insurance_payments_in globals_with_p self = Ok (Some 0%Z))
  /\ (principal self < 0.8 * total_price self ->
     get_num_insurance_payments_in globals_with_p self = Ok None).
Proof.
  intros HP Hr HN.
  assert (Ha : 0 < interest_rate self / 12).
  { apply Qlt_shift_div_l; [reflexivity|]. rewrite Qmult_0_l. exact Hr. }
  pose proof (growth_neq_1 _ _ Ha HN) as Hd.
  pose proof (p_closed_start (principal self) _ _ Hd) as H0.
  unfold get_num_insurance_payments_in, globals_with_p.
  cbn [load_global String.eqb Ascii.eqb Bool.eqb bind call_series].
  rewrite (max_balance_is_first _ _ _ HP HN Ha). cbn [bind].
  unfold Np.geb. split; intros H.
  - rewrite leb_fin; [reflexivity|]. rewrite H0. exact H.
  - replace (Np.leb _ _) with false; [reflexivity|].
    symmetry. cbn [Np.leb Np.ltb]. rewrite negb_involutive.
    destruct (Qle_bool _ _) eqn:E; [|reflexivity].
    exfalso. apply Qle_bool_iff in E. rewrite H0 in E.
    exact (Qlt_not_le _ _ H E).
Qed.

Lemma get_num_insurance_payments_with_p_witness :
  (let m := __init__ 1000 1 (12 # 100) (1 # 10) PMI_rate_default in
   get_num_insurance_payments_in globals_with_p m = Ok (Some 0%Z))
  /\ (let m := __init__ 1000 1 (12 # 100) (1 # 2) PMI_rate_default in
      get_num_insurance_payments_in globals_with_p m = Ok None).
Proof.
  split; intros m.
  - apply (proj1 (get_num_insurance_payments_with_p m
                    ltac:(vm_compute; reflexivity)
                    ltac:(vm_compute; reflexivity)
                    ltac:(vm_compute; reflexivity))).
    vm_compute. discriminate.
  - apply (proj2 (get_num_insurance_payments_with_p m
                    ltac:(vm_compute; reflexivity)
                    ltac:(vm_compute; reflexivity)
                    ltac:(vm_compute; reflexivity))).
    vm_compute. reflexivity.
Defined.

(** X16: with [p] bound to the balance function, a term of no months
    gives an empty balance array, and [max] of it raises [ValueError]. *)
Theorem get_num_insurance_payments_empty_term (self : Mortgage) :
  (num_months self <= 0)%Z ->
  get_num_insurance_payments_in globals_with_p self = Raise ValueError.
Proof.
  intros HN.
  unfold get_num_insurance_payments_in, globals_with_p.
  cbn [load_global String.eqb Ascii.eqb Bool.eqb bind call_series].
  unfold Np.arange. replace (Z.to_nat (num_months self)) with 0%nat by lia.
  reflexivity.
Qed.

Lemma get_num_insurance_payments_empty_term_witness :
  get_num_insurance_payments_in globals_with_p
    (__init__ 1000 0 (12 # 100) (1 # 10) PMI_rate_default)
  = Raise ValueError.
Proof.
  apply get_num_insurance_payments_empty_term. vm_compute. discriminate.
Defined.

(** ** The arrays of the charts *)

(** X17: every curve [plot] draws has as many x values as y values, one
    per month of the term (none for a term of no months), and the line
    of the first chart is the same value every month: 0.8 times the
    price, times the 1 of [np.ones_like]. *)
Theorem plot_curves_are_aligned
    (price : Q) (years : Z) (rate fraction pmi : Q) :
  let m := __init__ price years rate fraction pmi in
  Forall (fun c => List.length (fst c) = Z.to_nat (num_months m)
                   /\ List.length (snd c) = Z.to_nat (num_months m))
         (plot m)
  /\ snd (nth 1 (plot m) ([], []))
     = repeat (Np.Fin (0.8 * total_price m) * Np.Fin 1)%np
              (Z.to_nat (num_months m)).
Proof.
  intros m.
  unfold plot.
  rewrite p_vec_is_map, X_vec_is_map, I_vec_is_map.
  split.
  - repeat constructor; cbn [fst snd]; unfold Nd.smul, ones_like;
      rewrite ?length_map; apply arange_length.
  - cbn [nth snd]. unfold Nd.smul, ones_like. rewrite !map_map.
    rewrite map_const, arange_length. reflexivity.
Qed.

(** ** Edges of the term and totals of the table *)

(** X18: a term of no months is not refused: for a positive principal
    and rate the fixed payment is +inf and the total repayment is nan. *)
Theorem zero_term_payment_is_infinite (P alpha : Q) :
  0 < alpha * P ->
  _f P 0 alpha = Np.PInf /\ _total P 0 alpha = Np.NaN.
Proof.
  intros H.
  assert (Hf : _f P 0 alpha = Np.PInf).
  { unfold _f, Np.power. cbn [Z.ltb Z.compare andb].
    change ((1 + alpha) ^ 0) with 1.
    cbn [Np.mul Np.sub Np.add Np.neg Np.div].
    change (Qeq_bool (1 + - (1)) 0) with true. cbv iota.
    assert (Hn : 0 < alpha * 1 * P).
    { setoid_replace (alpha * 1 * P) with (alpha * P) by ring. exact H. }
    rewrite (Qeq_bool_false (alpha * 1 * P) 0).
    - unfold Np.inf_of_sign.
      replace (Qle_bool 0 (alpha * 1 * P)) with true; [reflexivity|].
      symmetry. apply Qle_bool_iff. apply Qlt_le_weak. exact Hn.
    - intros E. rewrite E in Hn. exact (Qlt_irrefl _ Hn). }
  split; [exact Hf|]. unfold _total. rewrite Hf. reflexivity.
Qed.

Lemma zero_term_payment_is_infinite_witness :
  _f 1000 0 (1 # 100) = Np.PInf /\ _total 1000 0 (1 # 100) = Np.NaN.
Proof.
  apply zero_term_payment_is_infinite. reflexivity.
Defined.

(** X19: [summary] on a mortgage just constructed returns the table the
    constructor built, never nothing, and leaves the object as it is. *)
Theorem summary_after_construction
    (price : Q) (years : Z) (rate fraction pmi : Q) :
  let m := __init__ price years rate fraction pmi in
  summary m = (Some (_style (df_summary m)), m)
  /\ map fst (df_summary m) = summary_items.
Proof.
  intros m. destruct (init_summary price years rate fraction pmi) as [H1 H2].
  fold m in H1, H2. split.
  - rewrite (surjective_pairing (summary m)), H1, H2. reflexivity.
  - subst m. unfold __init__, compute_summary.
    cbn [down_payment_fraction].
    destruct (Qltb fraction 0.2); reflexivity.
Qed.

Lemma monthly_rate_pos (rate : Q) : 0 < rate -> 0 < rate / 12.
Proof.
  intros Hr. apply Qlt_shift_div_l; [reflexivity|].
  rewrite Qmult_0_l. exact Hr.
Qed.

Lemma first_month_counted (self : Mortgage) :
  0 < principal self -> 0 < interest_rate self -> (0 < num_months self)%Z ->
  In 0%Z (months_above_threshold self).
Proof.
  intros HP Hr HN.
  pose proof (monthly_rate_pos _ Hr) as Ha.
  pose proof (growth_neq_1 _ _ Ha HN) as Hd.
  unfold months_above_threshold. apply filter_In.
  split; [apply in_arange; lia|].
  rewrite (p_finite _ _ _ (Z.lt_le_incl _ _ HN) Hd 0) by lia.
  unfold Np.gtb. apply ltb_fin. rewrite (p_closed_start _ _ _ Hd).
  setoid_replace (principal self) with (1 * principal self) at 2 by ring.
  apply Qmult_lt_compat_r; [exact HP|reflexivity].
Qed.

Lemma init_monthly_PMI (price : Q) (years : Z) (rate fraction pmi : Q) :
  monthly_PMI_payment (__init__ price years rate fraction pmi)
  = if Qltb fraction 0.2 then pmi * (price - fraction * price) / 12 else 0.
Proof.
  unfold __init__. rewrite compute_summary_monthly. reflexivity.
Qed.

Lemma init_total_PMI_count (price : Q) (years : Z) (rate fraction pmi : Q) :
  let m := __init__ price years rate fraction pmi in
  exists q, total_PMI_payment m = Np.Fin q
            /\ q == inject_Z (Z.of_nat (List.length (months_above_threshold m)))
                    * monthly_PMI_payment m.
Proof.
  intros m.
  pose proof (init_total_PMI_payment price years rate fraction pmi) as E.
  cbv zeta in E. fold m in E. rewrite E. unfold total_insurance_spec.
  apply sum_of_constant.
Qed.

Lemma loan_is_positive (price fraction : Q) :
  0 < price -> fraction < 1 -> 0 < price - fraction * price.
Proof.
  intros Hp Hf.
  setoid_replace (price - fraction * price) with ((1 - fraction) * price)
    by ring.
  apply Qmult_lt_0_compat; [|exact Hp].
  unfold Qminus. rewrite <- Qlt_minus_iff. exact Hf.
Qed.

(** X20: in exact arithmetic, when insurance applies (a down-payment
    fraction below 0.20, a positive insurance rate) to a loan with a
    positive price, rate and term, the monthly insurance payment is
    positive and the insurance total is at least one monthly payment. *)
Theorem insurance_is_charged_at_least_once
    (price : Q) (years : Z) (rate fraction pmi : Q) :
  0 < price -> fraction < 0.2 -> 0 < rate -> (0 < years)%Z -> 0 < pmi ->
  let m := __init__ price years rate fraction pmi in
  exists q, total_PMI_payment m = Np.Fin q
            /\ 0 < monthly_PMI_payment m
            /\ monthly_PMI_payment m <= q.
Proof.
  intros Hprice Hfrac Hrate Hyears Hpmi m.
  destruct (init_inputs price years rate fraction pmi)
    as (_ & _ & HN & Hr & _ & _ & _ & _ & HP).
  fold m in HN, Hr, HP.
  assert (Hloan : 0 < price - fraction * price).
  { apply loan_is_positive; [exact Hprice|].
    apply Qlt_trans with 0.2; [exact Hfrac|reflexivity]. }
  assert (Hmonthly : 0 < monthly_PMI_payment m).
  { subst m. rewrite init_monthly_PMI, (Qltb_true _ _ Hfrac).
    apply Qlt_shift_div_l; [reflexivity|]. rewrite Qmult_0_l.
    apply Qmult_lt_0_compat; assumption. }
  destruct (init_total_PMI_count price years rate fraction pmi) as [q [E Hq]].
  fold m in E, Hq. exists q. split; [exact E|]. split; [exact Hmonthly|].
  assert (Hin : In 0%Z (months_above_threshold m)).
  { apply first_month_counted.
    - rewrite HP. exact Hloan.
    - rewrite Hr. exact Hrate.
    - rewrite HN. lia. }
  rewrite Hq.
  setoid_replace (monthly_PMI_payment m) with (1 * monthly_PMI_payment m)
    at 1 by ring.
  apply Qmult_le_compat_r; [|apply Qlt_le_weak; exact Hmonthly].
  destruct (months_above_threshold m) as [|k l]; [contradiction|].
  cbn [List.length]. rewrite Nat2Z.inj_succ. unfold Z.succ.
  rewrite inject_Z_plus. change (inject_Z 1) with 1.
  setoid_replace 1 with (0 + 1) at 1 by ring.
  apply Qplus_le_l. change 0 with (inject_Z 0).
  rewrite <- Zle_Qle. lia.
Qed.

Lemma insurance_is_charged_at_least_once_witness :
  let m := __init__ 1000 1 (12 # 100) (1 # 10) PMI_rate_default in
  exists q, total_PMI_payment m = Np.Fin q
            /\ 0 < monthly_PMI_payment m
            /\ monthly_PMI_payment m <= q.
Proof.
  apply insurance_is_charged_at_least_once.
  - reflexivity.
  - reflexivity.
  - reflexivity.
  - lia.
  - reflexivity.
Defined.

Lemma init_grand_total (price : Q) (years : Z) (rate fraction pmi : Q) :
  let m := __init__ price years rate fraction pmi in
  summary_value m "Grand total"
  = Some (_total (principal m) (num_months m) (interest_rate m / 12)
          + Np.Fin (tax_rate m * total_price m * inject_Z (num_years m))
          + Np.Fin (down_payment m) + total_PMI_payment m)%np.
Proof.
  intros m. destruct (init_summary price years rate fraction pmi) as [Hs _].
  fold m in Hs. unfold summary_value. rewrite Hs. cbn [data _style].
  subst m. unfold __init__.
  match goal with
  | |- context [df_summary (compute_summary ?s)] =>
      destruct (compute_summary_rows s) as (_ & _ & _ & _ & _ & _ & H7)
  end.
  exact H7.
Qed.

(** X21: in exact arithmetic, for a positive price, rate and term, a
    down-payment fraction in [[0, 1)] and an insurance rate that is not
    negative, the grand total of the summary is finite and more than the
    price. *)
Theorem grand_total_exceeds_price
    (price : Q) (years : Z) (rate fraction pmi : Q) :
  0 < price -> 0 <= fraction -> fraction < 1 -> 0 < rate ->
  (0 < years)%Z -> 0 <= pmi ->
  let m := __init__ price years rate fraction pmi in
  exists g, summary_value m "Grand total" = Some (Np.Fin g) /\ price < g.
Proof.
  intros Hprice Hf0 Hf1 Hrate Hyears Hpmi m.
  destruct (init_inputs price years rate fraction pmi)
    as (Htp & Hny & HN & Hr & _ & Hdp & _ & Htr & HP).
  fold m in Htp, Hny, HN, Hr, Hdp, Htr, HP.
  pose proof (loan_is_positive price fraction Hprice Hf1) as Hloan.
  pose proof (monthly_rate_pos rate Hrate) as Ha.
  assert (HN0 : (0 < years * 12)%Z) by lia.
  pose proof (growth_neq_1 _ _ Ha HN0) as Hd.
  destruct (init_total_PMI_count price years rate fraction pmi) as [q [E Hq]].
  fold m in E, Hq.
  assert (Hmonthly : 0 <= monthly_PMI_payment m).
  { subst m. rewrite init_monthly_PMI.
    destruct (Qltb fraction 0.2); [|apply Qle_refl].
    apply Qle_shift_div_l; [reflexivity|]. rewrite Qmult_0_l.
    apply Qmult_le_0_compat; [exact Hpmi|].
    apply Qlt_le_weak. exact Hloan. }
  assert (Hq0 : 0 <= q).
  { rewrite Hq. apply Qmult_le_0_compat; [|exact Hmonthly].
    change 0 with (inject_Z 0). rewrite <- Zle_Qle. lia. }
  assert (Htax : 0 < 1.22e-2 * price * inject_Z years).
  { apply Qmult_lt_0_compat.
    - apply Qmult_lt_0_compat; [reflexivity|exact Hprice].
    - change 0 with (inject_Z 0). rewrite <- Zlt_Qlt. exact Hyears. }
  assert (Hdown : 0 <= fraction * price).
  { apply Qmult_le_0_compat; [exact Hf0|]. apply Qlt_le_weak. exact Hprice. }
  pose proof (repayment_closed_gt_principal _ _ _ Hloan HN0 Ha) as Hrep.
  pose proof (init_grand_total price years rate fraction pmi) as Hg.
  cbv zeta in Hg. fold m in Hg. rewrite Hg.
  rewrite E, Htp, Hny, HN, Hr, Hdp, Htr, HP.
  unfold _total. rewrite (f_finite _ _ _ (Z.lt_le_incl _ _ HN0) Hd).
  cbn [Np.mul Np.add]. eexists. split; [reflexivity|].
  setoid_replace price
    with ((price - fraction * price) + 0 + fraction * price + 0) at 1 by ring.
  apply Qplus_lt_le_compat; [|exact Hq0].
  apply Qplus_lt_le_compat; [|apply Qle_refl].
  apply Qplus_lt_le_compat; [exact Hrep|].
  apply Qlt_le_weak. exact Htax.
Qed.

Lemma grand_total_exceeds_price_witness :
  let m := __init__ 1000 1 (12 # 100) (1 # 10) PMI_rate_default in
  exists g, summary_value m "Grand total" = Some (Np.Fin g) /\ 1000 < g.
Proof.
  apply grand_total_exceeds_price.
  - reflexivity.
  - discriminate.
  - reflexivity.
  - reflexivity.
  - lia.
  - discriminate.
Defined.

Lemma init_interest_ratio (price : Q) (years : Z) (rate fraction pmi : Q) :
  let m := __init__ price years rate fraction pmi in
  summary_value m "Interest to principal ratio"
  = Some (Np.round2
            ((_total (principal m) (num_months m) (interest_rate m / 12)
              - Np.Fin (principal m)) / Np.Fin (principal m))%np).
Proof.
  intros m. destruct (init_summary price years rate fraction pmi) as [Hs _].
  fold m in Hs. unfold summary_value. rewrite Hs. cbn [data _style].
  subst m. unfold __init__, compute_summary. cbn [down_payment_fraction].
  destruct (Qltb fraction 0.2); reflexivity.
Qed.

(** X22: the interest-to-principal ratio of the summary is
    [np.round(x, 2)] for [x] the total interest over the principal; for
    a positive rate and term and a loan that is not zero, in exact
    arithmetic [x] depends on the rate and the term only: it is
    [N * alpha * (1+alpha)^N / ((1+alpha)^N - 1) - 1], whatever the price,
    the down payment and the insurance rate. *)
Theorem interest_ratio_is_scale_free
    (price : Q) (years : Z) (rate fraction pmi : Q) :
  0 < rate -> (0 < years)%Z -> ~ price - fraction * price == 0 ->
  let m := __init__ price years rate fraction pmi in
  let N := (years * 12)%Z in
  let alpha := rate / 12 in
  exists x,
    summary_value m "Interest to principal ratio" = Some (Np.round2 x)
    /\ x = ((_total (principal m) (num_months m) (interest_rate m / 12)
            - Np.Fin (principal m)) / Np.Fin (principal m))%np
    /\ Np.same x (Np.Fin (inject_Z N * f_closed 1 N alpha - 1)).
Proof.
  intros Hrate Hyears Hloan m N alpha.
  destruct (init_inputs price years rate fraction pmi)
    as (_ & _ & HN & Hr & _ & _ & _ & _ & HP).
  fold m in HN, Hr, HP.
  pose proof (monthly_rate_pos rate Hrate) as Ha. fold alpha in Ha.
  assert (HN0 : (0 < N)%Z) by (unfold N; lia).
  pose proof (growth_neq_1 _ _ Ha HN0) as Hd.
  pose proof (init_interest_ratio price years rate fraction pmi) as Hrow.
  cbv zeta in Hrow. fold m in Hrow. rewrite Hrow.
  eexists. split; [reflexivity|]. split; [reflexivity|].
  rewrite HN, Hr, HP.
  fold N alpha. unfold _total.
  rewrite (f_finite _ _ _ (Z.lt_le_incl _ _ HN0) Hd).
  cbn [Np.mul Np.sub Np.add Np.neg].
  rewrite (div_fin _ _ Hloan).
  cbn [Np.same]. unfold f_closed.
  field. split; [apply denominator_nonzero; exact Hd|exact Hloan].
Qed.

Lemma interest_ratio_is_scale_free_witness :
  let m := __init__ 1000 1 (12 # 100) (1 # 10) PMI_rate_default in
  exists x,
    summary_value m "Interest to principal ratio" = Some (Np.round2 x)
    /\ x = ((_total (principal m) (num_months m) (interest_rate m / 12)
            - Np.Fin (principal m)) / Np.Fin (principal m))%np
    /\ Np.same x (Np.Fin (inject_Z (1 * 12)
                          * f_closed 1 (1 * 12) ((12 # 100) / 12) - 1)).
Proof.
  apply interest_ratio_is_scale_free.
  - reflexivity.
  - lia.
  - vm_compute. discriminate.
Defined.

Lemma Qltb_iff (a b : Q) : Qltb a b = true <-> a < b.
Proof.
  split; [|apply Qltb_true].
  unfold Qltb. intros H. apply negb_true_iff in H.
  apply Qnot_le_lt. intros Hle. apply Qle_bool_iff in Hle.
  rewrite Hle in H. discriminate.
Qed.

Lemma Qltb_ext (a b c d : Q) : (a < b <-> c < d) -> Qltb a b = Qltb c d.
Proof.
  intros H. destruct (Qltb a b) eqn:E1, (Qltb c d) eqn:E2; try reflexivity.
  - apply Qltb_iff, H, Qltb_iff in E1. congruence.
  - apply Qltb_iff, H, Qltb_iff in E2. congruence.
Qed.

Lemma p_closed_scales (k : Z) (P : Q) (N : Z) (alpha : Q) :
  p_closed k P N alpha == P * p_closed k 1 N alpha.
Proof.
  unfold p_closed, Qdiv. ring.
Qed.

Lemma months_above_threshold_unit (self : Mortgage) :
  0 < principal self -> 0 < interest_rate self ->
  months_above_threshold self
  = filter (fun k => Qltb 0.8 (p_closed k 1 (num_months self)
                                 (interest_rate self / 12)))
           (Np.arange (num_months self)).
Proof.
  intros HP Hr. unfold months_above_threshold.
  destruct (Z_lt_le_dec 0 (num_months self)) as [HN|HN].
  - pose proof (monthly_rate_pos _ Hr) as Ha.
    pose proof (growth_neq_1 _ _ Ha HN) as Hd.
    apply filter_ext_in. intros k Hk. apply in_arange in Hk.
    rewrite (p_finite _ _ _ (Z.lt_le_incl _ _ HN) Hd k) by lia.
    unfold Np.gtb. cbn [Np.ltb].
    apply (Qltb_ext (0.8 * principal self)
                    (p_closed k (principal self) (num_months self)
                       (interest_rate self / 12))).
    rewrite p_closed_scales.
    rewrite (Qmult_comm 0.8 (principal self)).
    apply Qmult_lt_l. exact HP.
  - unfold Np.arange.
    replace (Z.to_nat (num_months self)) with 0%nat by lia. reflexivity.
Qed.

(** X23: in exact arithmetic the months counted for the insurance do
    not depend on the size of the loan: two mortgages with the same
    positive rate and the same term, each with a positive principal,
    have the same months above their thresholds. *)
Theorem insurance_months_are_scale_free (a b : Mortgage) :
  0 < principal a -> 0 < principal b ->
  0 < interest_rate a -> interest_rate b = interest_rate a ->
  num_months b = num_months a ->
  months_above_threshold a = months_above_threshold b.
Proof.
  intros HPa HPb Hra Hr HN.
  rewrite (months_above_threshold_unit a HPa Hra).
  rewrite (months_above_threshold_unit b HPb) by (rewrite Hr; exact Hra).
  rewrite Hr, HN. reflexivity.
Qed.

Lemma insurance_months_are_scale_free_witness :
  months_above_threshold
    (__init__ 1000 1 (12 # 100) (1 # 10) PMI_rate_default)
  = months_above_threshold
      (__init__ 500000 1 (12 # 100) (3 # 10) PMI_rate_default).
Proof.
  apply insurance_months_are_scale_free.
  - vm_compute. reflexivity.
  - vm_compute. reflexivity.
  - vm_compute. reflexivity.
  - vm_compute. reflexivity.
  - vm_compute. reflexivity.
Defined.
